(** * kdsphere: nearest-neighbour and radius queries on the sphere

    A shallow embedding of [kdsphere/kdsphere.py] (class [KDSphere]) and of
    the collaborators it calls: NumPy's float64 arithmetic, NumPy's array
    shapes, the repository's [spherical_to_cartesian] helper and SciPy's
    [cKDTree].

    NumPy's float64 is idealised: a finite value is a real number and
    arithmetic on finite values is exact, while the IEEE special values
    (the two infinities and NaN) and the way they propagate are kept.
    Rounding and signed zeros are not modelled. *)

From Stdlib Require Import Reals Lra List Bool Arith Lia Sorted Permutation.
Import ListNotations.

Set Implicit Arguments.

Open Scope R_scope.

(** ** NumPy float64 values *)

Inductive float64 : Type :=
| Fin (x : R)
| PInf
| NInf
| NaN.

(** The sign of a real number, as a [comparison] with zero. *)
Definition Rsign (x : R) : comparison :=
  match total_order_T x 0 with
  | inleft (left _) => Lt
  | inleft (right _) => Eq
  | inright _ => Gt
  end.

(** The infinity of a given sign; the sign of zero gives NaN
    (this is [0 * inf] and [0 / 0]). *)
Definition inf_of (c : comparison) : float64 :=
  match c with
  | Gt => PInf
  | Lt => NInf
  | Eq => NaN
  end.

Definition np_isnan (a : float64) : bool :=
  match a with
  | NaN => true
  | _ => false
  end.

Definition np_isfinite (a : float64) : bool :=
  match a with
  | Fin _ => true
  | _ => false
  end.

Definition np_add (a b : float64) : float64 :=
  match a, b with
  | NaN, _ | _, NaN => NaN
  | Fin x, Fin y => Fin (x + y)
  | PInf, NInf | NInf, PInf => NaN
  | PInf, _ | _, PInf => PInf
  | NInf, _ | _, NInf => NInf
  end.

Definition np_neg (a : float64) : float64 :=
  match a with
  | Fin x => Fin (- x)
  | PInf => NInf
  | NInf => PInf
  | NaN => NaN
  end.

Definition np_sub (a b : float64) : float64 := np_add a (np_neg b).

Definition np_mul (a b : float64) : float64 :=
  match a, b with
  | NaN, _ | _, NaN => NaN
  | Fin x, Fin y => Fin (x * y)
  | Fin x, PInf | PInf, Fin x => inf_of (Rsign x)
  | Fin x, NInf | NInf, Fin x => inf_of (CompOpp (Rsign x))
  | PInf, PInf | NInf, NInf => PInf
  | PInf, NInf | NInf, PInf => NInf
  end.

Definition np_div (a b : float64) : float64 :=
  match a, b with
  | NaN, _ | _, NaN => NaN
  | Fin x, Fin y =>
      match Rsign y with
      | Eq => inf_of (Rsign x)
      | _ => Fin (x / y)
      end
  | Fin _, (PInf | NInf) => Fin 0
  | PInf, Fin y => match Rsign y with Lt => NInf | _ => PInf end
  | NInf, Fin y => match Rsign y with Lt => PInf | _ => NInf end
  | (PInf | NInf), (PInf | NInf) => NaN
  end.

Definition np_sqrt (a : float64) : float64 :=
  match a with
  | Fin x => if Rle_dec 0 x then Fin (sqrt x) else NaN
  | PInf => PInf
  | NInf | NaN => NaN
  end.

Definition np_sin (a : float64) : float64 :=
  match a with
  | Fin x => Fin (sin x)
  | _ => NaN
  end.

Definition np_cos (a : float64) : float64 :=
  match a with
  | Fin x => Fin (cos x)
  | _ => NaN
  end.

(** [np.arcsin]: outside [-1, 1] the result is NaN (NumPy warns, it does
    not raise). *)
Definition np_arcsin (a : float64) : float64 :=
  match a with
  | Fin x =>
      if Rle_dec (-1) x
      then if Rle_dec x 1 then Fin (asin x) else NaN
      else NaN
  | _ => NaN
  end.

(** IEEE comparison [a <= b]: false as soon as one side is NaN. *)
Definition np_leb (a b : float64) : bool :=
  match a, b with
  | NaN, _ | _, NaN => false
  | NInf, _ | _, PInf => true
  | Fin x, Fin y => if Rle_dec x y then true else false
  | _, _ => false
  end.

(** IEEE comparison [a < b]. *)
Definition np_ltb (a b : float64) : bool :=
  match a, b with
  | NaN, _ | _, NaN => false
  | Fin x, Fin y => if Rlt_dec x y then true else false
  | NInf, NInf | PInf, PInf => false
  | NInf, _ | _, PInf => true
  | _, _ => false
  end.

Definition np_le (a b : float64) : Prop := np_leb a b = true.

(** ** Exceptions and the result of a call *)

(** The conditions a call can end in.  [InvalidInput] is the embedding's
    rejection of a malformed shape, [BroadcastError] is NumPy's refusal to
    combine two arrays of incompatible shapes, [IndexError] is an index
    out of range, and [DependencyError] is whatever the underlying
    Euclidean structure raises. *)
Inductive exn : Type :=
| InvalidInput
| BroadcastError
| IndexError
| DependencyError (code : nat).

Inductive result (A : Type) : Type :=
| OK (a : A)
| Raise (e : exn).

Arguments OK {A} a.
Arguments Raise {A} e.

Definition rbind {A B : Type} (m : result A) (f : A -> result B) : result B :=
  match m with
  | OK a => f a
  | Raise e => Raise e
  end.

Definition rmap {A B : Type} (f : A -> B) (m : result A) : result B :=
  rbind m (fun a => OK (f a)).

(** [mapM] for [result]: the first element that raises decides. *)
Fixpoint rmapM {A B : Type} (f : A -> result B) (l : list A) : result (list B) :=
  match l with
  | [] => OK []
  | a :: l' =>
      rbind (f a) (fun b => rbind (rmapM f l') (fun bs => OK (b :: bs)))
  end.

(** A method body: it reads the object [S] it is called on, may raise, and
    hands back the object as the body leaves it. *)
Definition Py (S A : Type) : Type := S -> result A * S.

Definition ret {S A : Type} (a : A) : Py S A := fun s => (OK a, s).

Definition raise {S A : Type} (e : exn) : Py S A := fun s => (Raise e, s).

Definition bind {S A B : Type} (m : Py S A) (f : A -> Py S B) : Py S B :=
  fun s =>
    match m s with
    | (OK a, s') => f a s'
    | (Raise e, s') => (Raise e, s')
    end.

(** Reading an attribute of [self]. *)
Definition attr {S A : Type} (field : S -> A) : Py S A :=
  fun s => (OK (field s), s).

(** A call that does not touch [self]. *)
Definition lift {S A : Type} (m : result A) : Py S A := fun s => (m, s).

Declare Scope py_scope.
Delimit Scope py_scope with py.

Notation "x <- m ;; k" := (bind m (fun x => k))
  (at level 61, m at next level, right associativity) : py_scope.
Notation "' pat <- m ;; k" := (bind m (fun x => match x with pat => k end))
  (at level 61, pat pattern, m at next level, right associativity) : py_scope.

(** What a call returns, and the object it leaves behind. *)
Definition returned {S A : Type} (m : Py S A) (self : S) : result A := fst (m self).
Definition after {S A : Type} (m : Py S A) (self : S) : S := snd (m self).

(** ** Arrays *)

(** The arrays the code handles: one-dimensional (a bare point such as
    [(lon, lat)]) or two-dimensional, as its list of rows. *)
Inductive ndarray : Type :=
| Arr1 (v : list float64)
| Arr2 (rows : list (list float64)).

(** An [array_like] argument, seen as the array [np.asarray] makes of it. *)
Definition array_like : Type := ndarray.

Definition np_asarray (data : array_like) : ndarray := data.

(** [np.atleast_2d]: a one-dimensional array becomes the single row of a
    two-dimensional one. *)
Definition np_atleast_2d (data : array_like) : ndarray :=
  match data with
  | Arr1 v => Arr2 [v]
  | Arr2 rows => Arr2 rows
  end.

(** [a.shape[0]]. *)
Definition shape0 (a : ndarray) : nat :=
  match a with
  | Arr1 v => length v
  | Arr2 rows => length rows
  end.

Definition point3 : Type := float64 * float64 * float64.

(** [a * c] for a two-dimensional [a] and a scalar [c]. *)
Definition arr_mul_scalar (a : list (list float64)) (c : float64) : list (list float64) :=
  map (map (fun x => np_mul x c)) a.

(** [c * a] for a scalar [c] and a two-dimensional [a]. *)
Definition scalar_mul_arr (c : float64) (a : list (list float64)) : list (list float64) :=
  map (map (fun x => np_mul c x)) a.

(** [np.arcsin(a)], element by element. *)
Definition arr_arcsin (a : list (list float64)) : list (list float64) :=
  map (map np_arcsin) a.

Definition row_div (row : list float64) (r : float64) : list float64 :=
  map (fun x => np_div x r) row.

Fixpoint zip_rows (a : list (list float64)) (r : list float64) : list (list float64) :=
  match a, r with
  | row :: a', ri :: r' => row_div row ri :: zip_rows a' r'
  | _, _ => []
  end.

(** [a / r] for [a] of shape (M', k) and a column [r] of shape (M, 1),
    under NumPy's broadcasting rule: the row counts must agree unless one
    of them is 1. *)
Definition arr_div_col (a : list (list float64)) (r : list float64) : result (list (list float64)) :=
  if Nat.eqb (length a) (length r) then OK (zip_rows a r)
  else
    match r, a with
    | [r0], _ => OK (map (fun row => row_div row r0) a)
    | _, [a0] => OK (map (fun ri => row_div a0 ri) r)
    | _, _ => Raise BroadcastError
    end.

(** ** The embedding *)

(** Modelled from the spec: [kdsphere/utils.py], which defines
    [spherical_to_cartesian], is not among the sources.  Section 4.1 gives
    the computation per point [(lon, lat)]:
    [x = cos(lat) cos(lon)], [y = cos(lat) sin(lon)], [z = sin(lat)], with
    the radius returned for every point always 1; section 7 says that a
    malformed input shape fails with [InvalidInput] at the embedding. *)
Definition embed_point (row : list float64) : result (point3 * float64) :=
  match row with
  | [lon; lat] =>
      OK ((np_mul (np_cos lat) (np_cos lon),
           np_mul (np_cos lat) (np_sin lon),
           np_sin lat),
          Fin 1)
  | _ => Raise InvalidInput
  end.

(** Modelled from the spec: [spherical_to_cartesian(data, return_radius=True)],
    the embedded points and the column of their radii (section 4.1). *)
Definition spherical_to_cartesian_radius (data : array_like) : result (list point3 * list float64) :=
  match np_asarray data with
  | Arr1 _ => Raise InvalidInput
  | Arr2 rows => rmap (@split point3 float64) (rmapM embed_point rows)
  end.

(** Modelled from the spec: [spherical_to_cartesian(data)] with
    [return_radius=False], the embedded points alone. *)
Definition spherical_to_cartesian (data : array_like) : result (list point3) :=
  rmap fst (spherical_to_cartesian_radius data).

(** ** The underlying Euclidean structure *)

(** What the code uses of [scipy.spatial.cKDTree]: construction from the
    embedded points, the k-nearest-neighbour search, the tree-against-tree
    radius join and the radius search around points.  Keyword options are
    passed through as they are. *)
Class EuclideanIndex : Type := {
  tree : Type;
  kwargs : Type;
  no_kwargs : kwargs;
  cKDTree : list point3 -> kwargs -> result tree;
  tree_query :
    tree -> list point3 -> nat -> float64 -> kwargs ->
    result (list (list float64) * list (list nat));
  tree_query_ball_tree :
    tree -> tree -> float64 -> kwargs -> result (list (list nat));
  tree_query_ball_point :
    tree -> list point3 -> float64 -> kwargs -> result (list (list nat))
}.

(** ** KDSphere *)

Section KDSphereDef.

Context {E : EuclideanIndex}.

Local Open Scope py_scope.

Record KDSphere : Type := mkKDSphere {
  data : ndarray;
  data3d : list point3;
  kdtree_ : tree
}.

(** [KDSphere.__init__(self, data, **kwargs)]. *)
Definition __init__ (data : array_like) (kw : kwargs) : result KDSphere :=
  let self_data := np_asarray data in
  rbind (spherical_to_cartesian self_data) (fun self_data3d =>
  rbind (cKDTree self_data3d kw) (fun self_kdtree =>
  OK (mkKDSphere self_data self_data3d self_kdtree))).

(** [KDSphere.query(self, data, k, eps, **kwargs)]. *)
Definition query (data : array_like) (k : nat) (eps : float64) (kw : kwargs)
  : Py KDSphere (list (list float64) * list (list nat)) :=
  '(data_3d, r) <- lift (spherical_to_cartesian_radius data) ;;
  kdtree <- attr kdtree_ ;;
  '(dist_3d, ind) <- lift (tree_query kdtree data_3d k eps kw) ;;
  ratio <- lift (arr_div_col (arr_mul_scalar dist_3d (Fin 0.5)) r) ;;
  let dist_2d := scalar_mul_arr (Fin 2) (arr_arcsin ratio) in
  ret (dist_2d, ind).

(** The [data] argument of [query_ball_tree], by the [isinstance] tests
    the method makes on it. *)
Inductive tree_or_data : Type :=
| IsKDTree (t : tree)
| IsKDSphere (s : KDSphere)
| IsArrayLike (d : array_like).

(** [KDSphere.query_ball_tree(self, data, r, **kwargs)]. *)
Definition query_ball_tree (data : tree_or_data) (r : float64) (kw : kwargs)
  : Py KDSphere (list (list nat)) :=
  other_kdtree <-
    match data with
    | IsKDTree t => ret t
    | IsKDSphere s => ret (kdtree_ s)
    | IsArrayLike d => lift (rmap kdtree_ (__init__ d no_kwargs))
    end ;;
  kdtree <- attr kdtree_ ;;
  lift (tree_query_ball_tree kdtree other_kdtree r kw).

(** What [query_ball_point] returns: a list of indices, or a list of such
    lists. *)
Inductive matches : Type :=
| MatchList (l : list nat)
| MatchLists (ls : list (list nat)).

(** [KDSphere.query_ball_point(self, data, r, **kwargs)]. *)
Definition query_ball_point (data : array_like) (r : float64) (kw : kwargs)
  : Py KDSphere matches :=
  data_3d <- lift (spherical_to_cartesian (np_atleast_2d data)) ;;
  kdtree <- attr kdtree_ ;;
  results <- lift (tree_query_ball_point kdtree data_3d r kw) ;;
  if Nat.eqb (shape0 (np_atleast_2d data)) 1 then
    match results with
    | r0 :: _ => ret (MatchList r0)
    | [] => raise IndexError
    end
  else ret (MatchLists results).

(** The tree [query_ball_tree] joins against, by the [isinstance] tests. *)
Definition other_tree (data : tree_or_data) : result tree :=
  match data with
  | IsKDTree t => OK t
  | IsKDSphere s => OK (kdtree_ s)
  | IsArrayLike d => rmap kdtree_ (__init__ d no_kwargs)
  end.

(** The shape test that ends [query_ball_point], on the underlying answer. *)
Definition unwrap (data : array_like) (results : list (list nat)) : result matches :=
  if Nat.eqb (shape0 (np_atleast_2d data)) 1 then
    match results with
    | r0 :: _ => OK (MatchList r0)
    | [] => Raise IndexError
    end
  else OK (MatchLists results).

End KDSphereDef.

(** ** A lifetime of calls *)

Section Lifetime.

Context {E : EuclideanIndex}.

(** One call of a query method on an instance. *)
Inductive call : Type :=
| CallQuery (data : array_like) (k : nat) (eps : float64) (kw : kwargs)
| CallQueryBallTree (data : tree_or_data) (r : float64) (kw : kwargs)
| CallQueryBallPoint (data : array_like) (r : float64) (kw : kwargs).

(** The instance as the call leaves it, whether it returned or raised. *)
Definition step (self : KDSphere) (c : call) : KDSphere :=
  match c with
  | CallQuery d k eps kw => after (query d k eps kw) self
  | CallQueryBallTree d r kw => after (query_ball_tree d r kw) self
  | CallQueryBallPoint d r kw => after (query_ball_point d r kw) self
  end.

Definition run (self : KDSphere) (cs : list call) : KDSphere :=
  fold_left step cs self.

(** The number of stored input points and of stored embedded points. *)
Definition n_input (self : KDSphere) : nat := shape0 (data self).
Definition n_embedded (self : KDSphere) : nat := length (data3d self).

End Lifetime.

(** ** A reference Euclidean structure

    The answers SciPy documents for [cKDTree], computed by exhaustive
    search: [query] returns the hits sorted by distance, nearest first,
    and marks a missing neighbour with an infinite distance and the index
    [n]; the radius searches return the points at distance at most [r].
    The search is exact, which every tolerance [eps >= 0] allows, and its
    answer is kept in the shape M x k that section 4.3 of the spec
    describes, for every [k].

    The model stands for [cKDTree] on the inputs SciPy answers this way:
    points and query points with finite coordinates, [k >= 1], a radius
    [r >= 0], and distances computed without rounding.  SciPy raises
    [ValueError] for [k = 0] and for non-finite coordinates, reads a
    negative radius as its absolute value, may answer approximately for
    [eps > 0], and rounds a chord, so that one at the diameter can come
    out just above 2.  The model does none of this; a property whose
    truth depends on it carries the premises that keep such inputs out,
    with a margin [tolerance] where rounding could decide. *)

Module Brute.

Definition sq (a : float64) : float64 := np_mul a a.

(** The Euclidean distance of two points. *)
Definition dist (p q : point3) : float64 :=
  match p, q with
  | (px, py, pz), (qx, qy, qz) =>
      np_sqrt (np_add (np_add (sq (np_sub px qx)) (sq (np_sub py qy)))
                      (sq (np_sub pz qz)))
  end.

Fixpoint insert (x : float64 * nat) (l : list (float64 * nat)) : list (float64 * nat) :=
  match l with
  | [] => [x]
  | y :: l' =>
      if np_leb (fst x) (fst y) then x :: y :: l' else y :: insert x l'
  end.

Definition sort (l : list (float64 * nat)) : list (float64 * nat) :=
  fold_right insert [] l.

(** Every stored point with its distance from [q] and its index. *)
Definition candidates (t : list point3) (q : point3) : list (float64 * nat) :=
  combine (map (dist q) t) (seq 0 (length t)).

(** The [k] nearest neighbours of [q], padded to length [k]. *)
Definition knn (t : list point3) (k : nat) (q : point3) : list (float64 * nat) :=
  let hits := firstn k (sort (candidates t q)) in
  hits ++ repeat (PInf, length t) (k - length hits).

(** The indices of the points of [t] at distance at most [r] from [q]. *)
Definition ball (t : list point3) (r : float64) (q : point3) : list nat :=
  map snd (filter (fun c => np_leb (fst c) r) (candidates t q)).

Definition query (t : list point3) (x : list point3) (k : nat) (eps : float64) (kw : unit)
  : result (list (list float64) * list (list nat)) :=
  let rows := map (knn t k) x in
  OK (map (map fst) rows, map (map snd) rows).

Definition query_ball_tree (t other : list point3) (r : float64) (kw : unit)
  : result (list (list nat)) :=
  OK (map (ball other r) t).

Definition query_ball_point (t : list point3) (x : list point3) (r : float64) (kw : unit)
  : result (list (list nat)) :=
  OK (map (ball t r) x).

#[global] Instance index : EuclideanIndex := {
  tree := list point3;
  kwargs := unit;
  no_kwargs := tt;
  cKDTree := fun pts _ => OK pts;
  tree_query := query;
  tree_query_ball_tree := query_ball_tree;
  tree_query_ball_point := query_ball_point
}.

End Brute.

(** ** Order of the reference search *)

(** Two candidates in the order of their distances. *)
Definition by_dist (a b : float64 * nat) : Prop := np_le (fst a) (fst b).

(** The candidate's distance is a number, not NaN. *)
Definition has_dist (c : float64 * nat) : Prop := np_isnan (fst c) = false.

(** ** Points on the unit sphere *)

(** A point with finite coordinates and Euclidean norm 1. *)
Definition on_unit_sphere (p : point3) : Prop :=
  exists x y z : R, p = (Fin x, Fin y, Fin z) /\ x * x + y * y + z * z = 1.

(** Every coordinate of every row is a finite number. *)
Definition finite_rows (rows : list (list float64)) : Prop :=
  Forall (Forall (fun a => np_isfinite a = true)) rows.

(** A chord between two points of the unit sphere: a number in [0, 2]. *)
Definition is_chord (a : float64) : Prop :=
  exists d : R, a = Fin d /\ 0 <= d <= 2.

(** A great-circle distance: a number in [0, pi]. *)
Definition is_angle (a : float64) : Prop :=
  exists theta : R, a = Fin theta /\ 0 <= theta <= PI.

(** ** The spec's distance conversion *)

(** ChordToGreatCircle as section 4.1 words it:
    [angle = 2 arcsin(chordDistance / (2 radius))]. *)
Definition chord_to_great_circle (chordDistance radius : float64) : float64 :=
  np_mul (Fin 2) (np_arcsin (np_div chordDistance (np_mul (Fin 2) radius))).

(** The chord radius of an angular radius, as section 4.4 words it:
    [chord = 2 sin(r / 2)]. *)
Definition chord_radius (r : float64) : float64 :=
  np_mul (Fin 2) (np_sin (np_div r (Fin 2))).

(** The conversion applied to every chord distance of every query point,
    each row with the radius of its own query point. *)
Fixpoint great_circle_rows (dist_3d : list (list float64)) (r : list float64)
  : list (list float64) :=
  match dist_3d, r with
  | row :: rows, ri :: r' =>
      map (fun d => chord_to_great_circle d ri) row :: great_circle_rows rows r'
  | _, _ => []
  end.

(** The entry [a[q][j]] of a two-dimensional array, when there is one. *)
Definition entry {A : Type} (a : list (list A)) (q j : nat) : option A :=
  match nth_error a q with
  | Some row => nth_error row j
  | None => None
  end.


(** ** Instances and inputs used in the examples *)

(** The unit vectors the points (0, 0) and (pi, 0) embed to. *)
Definition unit_x : point3 := (Fin 1, Fin 0, Fin 0).
Definition minus_unit_x : point3 := (Fin (-1), Fin 0, Fin 0).

(** The one-point array [[(0, 0)]] and the bare point [(0, 0)]. *)
Definition origin : array_like := Arr2 [[Fin 0; Fin 0]].
Definition origin_point : array_like := Arr1 [Fin 0; Fin 0].

(** The point (pi, 0), opposite (0, 0) on the sphere. *)
Definition antipode : array_like := Arr2 [[Fin PI; Fin 0]].
Definition antipode_point : array_like := Arr1 [Fin PI; Fin 0].

(** [KDSphere([[0, 0]])] over the reference structure. *)
Definition origin_index : KDSphere (E := Brute.index) :=
  mkKDSphere (E := Brute.index) origin [unit_x] [unit_x].

(** [KDSphere] of an empty array of shape (0, 2), over the reference
    structure. *)
Definition empty_index : KDSphere (E := Brute.index) :=
  mkKDSphere (E := Brute.index) (Arr2 []) [] [].

(** The two-point array [[(0, 0), (pi, 0)]] and [KDSphere] of it over the
    reference structure. *)
Definition poles : array_like := Arr2 [[Fin 0; Fin 0]; [Fin PI; Fin 0]].

Definition poles_index : KDSphere (E := Brute.index) :=
  mkKDSphere (E := Brute.index) poles [unit_x; minus_unit_x] [unit_x; minus_unit_x].

(** ** Reading the answers of the query methods *)

(** The great-circle distance of two embedded points, as [query] derives
    it from their chord. *)
Definition angle_between (p q : point3) : float64 :=
  chord_to_great_circle (Brute.dist p q) (Fin 1).

(** The neighbour sets in what [query_ball_point] returns, one per query
    point, whichever of the two shapes it has. *)
Definition sets_of (m : matches) : list (list nat) :=
  match m with
  | MatchList l => [l]
  | MatchLists ls => ls
  end.

(** ** Inputs the reference structure stands for *)

(** A point of the Euclidean structure with finite coordinates. *)
Definition finite_point (p : point3) : Prop :=
  match p with
  | (x, y, z) =>
      np_isfinite x = true /\ np_isfinite y = true /\ np_isfinite z = true
  end.

(** A distance far above what float64 rounding can move a chord or a
    radius by. *)
Definition tolerance : R := 0.001.

(** No stored point lies at, or within [tolerance] of, the antipode of a
    query point: every chord from a query point to a stored point stays
    below the diameter by [tolerance]. *)
Definition clear_of_antipodes (pts_q t : list point3) : Prop :=
  forall pq p : point3,
    In pq pts_q -> In p t ->
    exists d : R, Brute.dist pq p = Fin d /\ d <= 2 - tolerance.

(** The point (pi/2, 0), a quarter turn east of (0, 0), and the unit
    vector it embeds to. *)
Definition unit_y : point3 := (Fin 0, Fin 1, Fin 0).

(** The two-point array [[(0, 0), (pi/2, 0)]] and [KDSphere] of it over
    the reference structure. *)
Definition corner : array_like := Arr2 [[Fin 0; Fin 0]; [Fin (PI / 2); Fin 0]].

Definition corner_index : KDSphere (E := Brute.index) :=
  mkKDSphere (E := Brute.index) corner [unit_x; unit_y] [unit_x; unit_y].

(** * Properties *)

(** ** float64 arithmetic *)

Ltac r_cases :=
  repeat match goal with
  | |- context [Rle_dec ?a ?b] => destruct (Rle_dec a b)
  | |- context [Rlt_dec ?a ?b] => destruct (Rlt_dec a b)
  | |- context [total_order_T ?a ?b] => destruct (total_order_T a b) as [[?|?]|?]
  | H : context [Rle_dec ?a ?b] |- _ => destruct (Rle_dec a b)
  | H : context [Rlt_dec ?a ?b] |- _ => destruct (Rlt_dec a b)
  | H : context [total_order_T ?a ?b] |- _ => destruct (total_order_T a b) as [[?|?]|?]
  end.

Ltac np_crush :=
  unfold np_div, np_mul, np_arcsin, np_leb, np_ltb, np_sqrt, np_sub, np_add,
    np_neg, inf_of, Rsign in *;
  r_cases; simpl in *; try congruence; try lra.

(** The code's [d * 0.5 / r] is the spec's [d / (2 r)]. *)
Lemma half_div_eq (d r : float64) :
  np_div (np_mul d (Fin 0.5)) r = np_div d (np_mul (Fin 2) r).
Proof.
  destruct d as [x| | |], r as [y| | |]; np_crush;
    try (f_equal; replace 0.5 with (/ 2) by lra; field; lra).
Qed.

Lemma arcsin_out_of_domain (a : float64) :
  np_ltb (Fin 1) a = true -> np_arcsin a = NaN.
Proof. destruct a; np_crush. Qed.


(** [asin] does not decrease on [-1, 1]. *)
Lemma asin_monotone (x y : R) :
  -1 <= x -> x <= y -> y <= 1 -> asin x <= asin y.
Proof.
  intros Hx Hxy Hy.
  destruct (Rle_lt_dec (asin x) (asin y)) as [Hle | Hlt]; trivial.
  exfalso.
  pose proof (asin_bound x) as Bx.
  pose proof (asin_bound y) as By.
  assert (Hs : sin (asin y) < sin (asin x)).
  { apply sin_increasing_1; lra. }
  rewrite !sin_asin in Hs; lra.
Qed.

(** ** The embedding *)

Lemma rmapM_length {A B : Type} (f : A -> result B) (l : list A) (bs : list B) :
  rmapM f l = OK bs -> length bs = length l.
Proof.
  revert bs; induction l as [| a l IH]; simpl; intros bs H.
  - injection H as <-; reflexivity.
  - destruct (f a) as [b | e]; simpl in H; try discriminate.
    destruct (rmapM f l) as [bs' | e]; simpl in H; try discriminate.
    injection H as <-; simpl; f_equal; apply IH; reflexivity.
Qed.

Lemma rmapM_embed_radius (rows : list (list float64)) (ps : list (point3 * float64)) :
  rmapM embed_point rows = OK ps -> Forall (fun r => r = Fin 1) (snd (split ps)).
Proof.
  revert ps; induction rows as [| row rows IH]; simpl; intros ps H.
  - injection H as <-; constructor.
  - destruct (embed_point row) as [[p r] | e] eqn:Hp; simpl in H; try discriminate.
    destruct (rmapM embed_point rows) as [ps' | e]; simpl in H; try discriminate.
    injection H as <-; simpl.
    specialize (IH ps' eq_refl).
    destruct (split ps') as [xs ys]; simpl in *.
    constructor; trivial.
    unfold embed_point in Hp.
    destruct row as [| lon [| lat [| ? ?]]]; try discriminate.
    injection Hp as _ <-; reflexivity.
Qed.

(** What a successful embedding tells: the input is two-dimensional, and
    there is one embedded point and one radius, equal to 1, per row. *)
Lemma embed_radius_ok (data : array_like) (data_3d : list point3) (r : list float64) :
  spherical_to_cartesian_radius data = OK (data_3d, r) ->
  exists rows, data = Arr2 rows /\
    length data_3d = length rows /\ length r = length rows /\
    Forall (fun ri => ri = Fin 1) r.
Proof.
  unfold spherical_to_cartesian_radius, np_asarray, rmap, rbind.
  destruct data as [v | rows]; try discriminate.
  destruct (rmapM embed_point rows) as [ps | e] eqn:Hps; try discriminate.
  intros H; injection H as H.
  exists rows.
  pose proof (rmapM_length _ _ Hps) as Hlen.
  pose proof (rmapM_embed_radius _ Hps) as Hr.
  pose proof (length_fst_split ps) as Hl1.
  pose proof (length_snd_split ps) as Hl2.
  rewrite H in *; simpl in *.
  repeat split; congruence.
Qed.

Lemma embed_ok (data : array_like) (data_3d : list point3) :
  spherical_to_cartesian data = OK data_3d ->
  exists r, spherical_to_cartesian_radius data = OK (data_3d, r).
Proof.
  unfold spherical_to_cartesian, rmap, rbind.
  destruct (spherical_to_cartesian_radius data) as [[d r] | e]; try discriminate.
  intros H; injection H as <-; exists r; reflexivity.
Qed.

(** ** Arrays *)

Lemma arr_div_col_rows (a : list (list float64)) (r : list float64) :
  length a = length r -> arr_div_col a r = OK (zip_rows a r).
Proof.
  intros H; unfold arr_div_col; rewrite H, Nat.eqb_refl; reflexivity.
Qed.

Lemma convert_rows (dist_3d : list (list float64)) (r : list float64) :
  scalar_mul_arr (Fin 2) (arr_arcsin (zip_rows (arr_mul_scalar dist_3d (Fin 0.5)) r))
  = great_circle_rows dist_3d r.
Proof.
  revert r; induction dist_3d as [| row rows IH]; intros [| ri r]; simpl; trivial.
  f_equal.
  - unfold row_div; rewrite !map_map.
    apply map_ext; intros d.
    unfold chord_to_great_circle; rewrite half_div_eq; reflexivity.
  - apply IH.
Qed.

Lemma great_circle_rows_length (dist_3d : list (list float64)) (r : list float64) :
  length dist_3d = length r -> length (great_circle_rows dist_3d r) = length r.
Proof.
  revert r; induction dist_3d as [| row rows IH]; intros [| ri r]; simpl;
    intros H; try discriminate; trivial.
  f_equal; apply IH; lia.
Qed.

Lemma great_circle_rows_entry (dist_3d : list (list float64)) (r : list float64)
      (q j : nat) (d ri : float64) :
  entry dist_3d q j = Some d -> nth_error r q = Some ri ->
  entry (great_circle_rows dist_3d r) q j = Some (chord_to_great_circle d ri).
Proof.
  unfold entry.
  revert r q; induction dist_3d as [| row rows IH]; intros [| r0 r] [| q]; simpl;
    try discriminate.
  - intros Hd Hr; injection Hr as <-.
    rewrite nth_error_map, Hd; reflexivity.
  - intros Hd Hr; apply IH; trivial.
Qed.

(** ** The methods, run on an instance *)

Section Methods.

Context {E : EuclideanIndex}.

Implicit Types (self : KDSphere) (kw : kwargs) (r eps : float64).

Lemma query_run self (data : array_like) (k : nat) eps kw :
  query data k eps kw self =
  (rbind (spherical_to_cartesian_radius data) (fun e =>
   rbind (tree_query (kdtree_ self) (fst e) k eps kw) (fun a =>
   rbind (arr_div_col (arr_mul_scalar (fst a) (Fin 0.5)) (snd e)) (fun ratio =>
   OK (scalar_mul_arr (Fin 2) (arr_arcsin ratio), snd a)))),
   self).
Proof.
  unfold query, bind, lift, attr, ret.
  destruct (spherical_to_cartesian_radius data) as [[data_3d rs] | e]; simpl; trivial.
  destruct (tree_query (kdtree_ self) data_3d k eps kw) as [[dist_3d ind] | e];
    simpl; trivial.
  destruct (arr_div_col (arr_mul_scalar dist_3d (Fin 0.5)) rs); reflexivity.
Qed.

Lemma query_ball_tree_run self (data : tree_or_data) r kw :
  query_ball_tree data r kw self =
  (rbind (other_tree data) (fun other_kdtree =>
   tree_query_ball_tree (kdtree_ self) other_kdtree r kw),
   self).
Proof.
  unfold query_ball_tree, bind, lift, attr, ret, other_tree.
  destruct data as [t | s | d]; simpl; trivial.
  destruct (rmap kdtree_ (__init__ d no_kwargs)); reflexivity.
Qed.

Lemma query_ball_point_run self (data : array_like) r kw :
  query_ball_point data r kw self =
  (rbind (spherical_to_cartesian (np_atleast_2d data)) (fun data_3d =>
   rbind (tree_query_ball_point (kdtree_ self) data_3d r kw) (unwrap data)),
   self).
Proof.
  unfold query_ball_point, bind, lift, attr, ret, unwrap, raise.
  destruct (spherical_to_cartesian (np_atleast_2d data)) as [data_3d | e];
    simpl; trivial.
  destruct (tree_query_ball_point (kdtree_ self) data_3d r kw) as [results | e];
    simpl; trivial.
  destruct (Nat.eqb (shape0 (np_atleast_2d data)) 1); trivial.
  destruct results; reflexivity.
Qed.

(** [query] on a well-shaped input for which the underlying search
    returns one row per query point. *)
Lemma query_returned self (data : array_like) (k : nat) eps kw
      (data_3d : list point3) (rs : list float64)
      (dist_3d : list (list float64)) (ind : list (list nat)) :
  spherical_to_cartesian_radius data = OK (data_3d, rs) ->
  tree_query (kdtree_ self) data_3d k eps kw = OK (dist_3d, ind) ->
  length dist_3d = length data_3d ->
  returned (query data k eps kw) self = OK (great_circle_rows dist_3d rs, ind).
Proof.
  intros He Hq Hlen.
  unfold returned; rewrite query_run, He; simpl; rewrite Hq; simpl.
  destruct (embed_radius_ok _ He) as (rows & _ & Hd & Hr & _).
  rewrite arr_div_col_rows.
  - simpl; rewrite convert_rows; reflexivity.
  - unfold arr_mul_scalar; rewrite length_map; congruence.
Qed.

End Methods.

(** ** The distance conversion of [query] *)

Lemma conversion_not_nan (d : float64) :
  np_isnan (chord_to_great_circle d (Fin 1)) = false ->
  exists x, d = Fin x /\ -1 <= x / 2 <= 1 /\
    chord_to_great_circle d (Fin 1) = Fin (2 * asin (x / 2)).
Proof.
  unfold chord_to_great_circle.
  destruct d as [x| | |]; np_crush.
  intros _; exists x; repeat split; try lra.
  do 3 f_equal; lra.
Qed.

Lemma conversion_monotone (a b : float64) :
  np_le a b ->
  np_isnan (chord_to_great_circle a (Fin 1)) = false ->
  np_isnan (chord_to_great_circle b (Fin 1)) = false ->
  np_le (chord_to_great_circle a (Fin 1)) (chord_to_great_circle b (Fin 1)).
Proof.
  intros Hab Ha Hb.
  destruct (conversion_not_nan _ Ha) as (x & -> & Hx & ->).
  destruct (conversion_not_nan _ Hb) as (y & -> & Hy & ->).
  unfold np_le, np_leb in *.
  destruct (Rle_dec x y) as [Hxy | ?]; try discriminate.
  pose proof (@asin_monotone (x / 2) (y / 2)) as Hm.
  destruct (Rle_dec (2 * asin (x / 2)) (2 * asin (y / 2))); trivial.
  lra.
Qed.

Lemma converted_row_sorted (row : list float64) :
  Sorted np_le row ->
  Forall (fun a => np_isnan a = false)
         (map (fun d => chord_to_great_circle d (Fin 1)) row) ->
  Sorted np_le (map (fun d => chord_to_great_circle d (Fin 1)) row).
Proof.
  induction 1 as [| a row Hs IH Hhd]; simpl; intros Hn.
  - constructor.
  - inversion Hn as [| ? ? Ha Hrest]; subst.
    constructor.
    + apply IH; trivial.
    + destruct Hhd as [| b row' Hab]; simpl; constructor.
      inversion Hrest; subst.
      apply conversion_monotone; trivial.
Qed.

Lemma converted_rows_sorted (dist_3d : list (list float64)) (rs : list float64) :
  Forall (fun ri => ri = Fin 1) rs ->
  Forall (Sorted np_le) dist_3d ->
  Forall (Forall (fun a => np_isnan a = false)) (great_circle_rows dist_3d rs) ->
  Forall (Sorted np_le) (great_circle_rows dist_3d rs).
Proof.
  revert rs; induction dist_3d as [| row rows IH]; intros [| ri rs] Hr Hs Hn;
    simpl in *; try constructor.
  - inversion Hr; inversion Hs; inversion Hn; subst.
    apply converted_row_sorted; trivial.
  - inversion Hr; inversion Hs; inversion Hn; subst.
    apply IH; trivial.
Qed.

(** ** The claims about [KDSphere], for any underlying structure *)

Section Claims.

Context {E : EuclideanIndex}.

Implicit Types (self : KDSphere) (kw : kwargs) (r eps : float64).

(** C3.  When [query] is called with M well-shaped query points and the
    underlying k-nearest-neighbour search answers with one row of chord
    distances per query point, every returned distance is
    [2 arcsin(d / (2 r))] for the chord distance [d] the search reported
    at that place and the radius [r] the embedding recorded for that
    query point, there are M rows of them, and the returned indices are
    the search's indices, unchanged. *)
Theorem query_great_circle_distances
        self (data : array_like) (k : nat) eps kw
        (data_3d : list point3) (rs : list float64)
        (dist_3d : list (list float64)) (ind : list (list nat)) :
  spherical_to_cartesian_radius data = OK (data_3d, rs) ->
  tree_query (kdtree_ self) data_3d k eps kw = OK (dist_3d, ind) ->
  length dist_3d = length data_3d ->
  returned (query data k eps kw) self = OK (great_circle_rows dist_3d rs, ind) /\
  length (great_circle_rows dist_3d rs) = shape0 (np_asarray data) /\
  (forall (q j : nat) (d rq : float64),
      entry dist_3d q j = Some d -> nth_error rs q = Some rq ->
      entry (great_circle_rows dist_3d rs) q j = Some (chord_to_great_circle d rq)).
Proof.
  intros He Hq Hlen.
  split; [| split].
  - eapply query_returned; eassumption.
  - destruct (embed_radius_ok _ He) as (rows & -> & Hd & Hr & _).
    rewrite great_circle_rows_length by congruence.
    simpl; exact Hr.
  - intros q j d rq; apply great_circle_rows_entry.
Qed.

(** C10.  When some reported chord distance [d] has [d / (2 r) > 1] for
    the radius [r] of its query point, [query] still returns: the angular
    distance at that place is NaN, every entry is the conversion of its
    own chord distance alone, and the indices are the search's. *)
Theorem query_ratio_above_one_is_nan
        self (data : array_like) (k : nat) eps kw
        (data_3d : list point3) (rs : list float64)
        (dist_3d : list (list float64)) (ind : list (list nat))
        (q j : nat) (d rq : float64) :
  spherical_to_cartesian_radius data = OK (data_3d, rs) ->
  tree_query (kdtree_ self) data_3d k eps kw = OK (dist_3d, ind) ->
  length dist_3d = length data_3d ->
  entry dist_3d q j = Some d ->
  nth_error rs q = Some rq ->
  np_ltb (Fin 1) (np_div d (np_mul (Fin 2) rq)) = true ->
  exists dist_2d,
    returned (query data k eps kw) self = OK (dist_2d, ind) /\
    entry dist_2d q j = Some NaN /\
    (forall (q' j' : nat) (d' r' : float64),
        entry dist_3d q' j' = Some d' -> nth_error rs q' = Some r' ->
        entry dist_2d q' j' = Some (chord_to_great_circle d' r')).
Proof.
  intros He Hq Hlen Hd Hr Hratio.
  exists (great_circle_rows dist_3d rs).
  split; [| split].
  - eapply query_returned; eassumption.
  - rewrite (great_circle_rows_entry _ _ _ _ Hd Hr).
    unfold chord_to_great_circle.
    rewrite (arcsin_out_of_domain _ Hratio); reflexivity.
  - intros q' j' d' r'; apply great_circle_rows_entry.
Qed.


(** C8, as amended.  When the underlying search reports the chord
    distances of every query point nearest first, and [query] returns no
    NaN distance, the returned angular distances of every query point are
    in non-decreasing order. *)
Theorem query_distances_sorted
        self (data : array_like) (k : nat) eps kw
        (data_3d : list point3) (rs : list float64)
        (dist_3d dist_2d : list (list float64)) (ind ind' : list (list nat)) :
  spherical_to_cartesian_radius data = OK (data_3d, rs) ->
  tree_query (kdtree_ self) data_3d k eps kw = OK (dist_3d, ind) ->
  length dist_3d = length data_3d ->
  Forall (Sorted np_le) dist_3d ->
  returned (query data k eps kw) self = OK (dist_2d, ind') ->
  Forall (Forall (fun a => np_isnan a = false)) dist_2d ->
  Forall (Sorted np_le) dist_2d.
Proof.
  intros He Hq Hlen Hsorted Hret Hnan.
  rewrite (query_returned _ _ _ _ _ He Hq Hlen) in Hret.
  injection Hret as <- _.
  destruct (embed_radius_ok _ He) as (rows & _ & _ & _ & Hone).
  apply converted_rows_sorted; trivial.
Qed.

(** C5.  On a well-shaped input for which the underlying radius search
    answers with one set per query point: if the at-least-2D shape of the
    input has first dimension 1, [query_ball_point] returns that one set,
    flat; if there are M >= 2 query points it returns the M sets of the
    search, in the search's order. *)
Theorem query_ball_point_shape
        self (data : array_like) r kw
        (data_3d : list point3) (results : list (list nat)) :
  spherical_to_cartesian (np_atleast_2d data) = OK data_3d ->
  tree_query_ball_point (kdtree_ self) data_3d r kw = OK results ->
  length results = length data_3d ->
  (shape0 (np_atleast_2d data) = 1%nat ->
   exists s, results = [s] /\
     returned (query_ball_point data r kw) self = OK (MatchList s)) /\
  ((2 <= shape0 (np_atleast_2d data))%nat ->
   returned (query_ball_point data r kw) self = OK (MatchLists results) /\
   length results = shape0 (np_atleast_2d data)).
Proof.
  intros He Hq Hlen.
  destruct (embed_ok _ He) as (rs & Her).
  destruct (embed_radius_ok _ Her) as (rows & Hrows & Hd & _ & _).
  assert (Hshape : shape0 (np_atleast_2d data) = length results).
  { rewrite Hrows; simpl; congruence. }
  unfold returned; rewrite query_ball_point_run, He; simpl; rewrite Hq; simpl.
  unfold unwrap; rewrite Hshape.
  split; intros HM.
  - destruct results as [| s [| ? ?]]; try discriminate.
    exists s; split; reflexivity.
  - destruct (Nat.eqb_spec (length results) 1) as [H1 | _]; [lia |].
    split; reflexivity.
Qed.


(** C6.  [query_ball_tree] joins against the very tree it is given, or
    against the tree a given [KDSphere] already holds, with no embedding;
    any other argument is embedded as raw angular points and a new tree is
    built over them, with default options, for the join. *)
Theorem query_ball_tree_resolves_other self r kw :
  (forall t : tree,
      returned (query_ball_tree (IsKDTree t) r kw) self
      = tree_query_ball_tree (kdtree_ self) t r kw) /\
  (forall s : KDSphere,
      returned (query_ball_tree (IsKDSphere s) r kw) self
      = tree_query_ball_tree (kdtree_ self) (kdtree_ s) r kw) /\
  (forall d : array_like,
      returned (query_ball_tree (IsArrayLike d) r kw) self
      = rbind (spherical_to_cartesian (np_asarray d)) (fun points =>
        rbind (cKDTree points no_kwargs) (fun fresh =>
        tree_query_ball_tree (kdtree_ self) fresh r kw))).
Proof.
  split; [| split]; intros x; unfold returned;
    rewrite query_ball_tree_run; simpl; trivial.
  unfold __init__, rmap.
  destruct (spherical_to_cartesian (np_asarray x)) as [points | e]; simpl; trivial.
  destruct (cKDTree points no_kwargs); reflexivity.
Qed.

Lemma step_keeps self (c : call) : step self c = self.
Proof.
  destruct c; unfold step, after.
  - rewrite query_run; reflexivity.
  - rewrite query_ball_tree_run; reflexivity.
  - rewrite query_ball_point_run; reflexivity.
Qed.

Lemma run_keeps self (cs : list call) : run self cs = self.
Proof.
  unfold run; induction cs as [| c cs IH]; simpl; trivial.
  rewrite step_keeps; exact IH.
Qed.

Lemma init_counts (data : array_like) kw self :
  __init__ data kw = OK self -> n_embedded self = n_input self.
Proof.
  unfold __init__, rbind.
  destruct (spherical_to_cartesian (np_asarray data)) as [pts | e] eqn:He;
    try discriminate.
  destruct (cKDTree pts kw) as [t | e]; try discriminate.
  intros H; injection H as <-.
  destruct (embed_ok _ He) as (rs & Her).
  destruct (embed_radius_ok _ Her) as (rows & Hrows & Hd & _ & _).
  unfold n_embedded, n_input; simpl.
  rewrite Hrows; simpl; exact Hd.
Qed.

(** C7.  An instance built by [__init__] stores as many embedded points
    as input points; no call of [query], [query_ball_tree] or
    [query_ball_point] changes the stored input points, the embedded
    points or the underlying structure, so the two counts agree after
    any sequence of calls. *)
Theorem counts_agree_for_life (data : array_like) kw self (cs : list call) :
  __init__ data kw = OK self ->
  n_embedded self = n_input self /\
  run self cs = self /\
  n_embedded (run self cs) = n_input (run self cs).
Proof.
  intros Hinit.
  pose proof (init_counts _ _ Hinit) as Hn.
  rewrite run_keeps; auto.
Qed.

End Claims.

(** ** The reference structure meets SciPy's contract *)

Lemma np_leb_total (a b : float64) :
  np_isnan a = false -> np_isnan b = false ->
  np_leb a b = false -> np_leb b a = true.
Proof. destruct a, b; np_crush. Qed.

Lemma np_leb_inf (a : float64) : np_isnan a = false -> np_leb a PInf = true.
Proof. destruct a; np_crush. Qed.

Lemma insert_all (P : float64 * nat -> Prop) (x : float64 * nat) (l : list (float64 * nat)) :
  P x -> Forall P l -> Forall P (Brute.insert x l).
Proof.
  intros Hx; induction 1 as [| y l Hy Hl IH]; simpl.
  - repeat constructor; trivial.
  - destruct (np_leb (fst x) (fst y)); repeat constructor; trivial.
Qed.

Lemma sort_all (P : float64 * nat -> Prop) (l : list (float64 * nat)) :
  Forall P l -> Forall P (Brute.sort l).
Proof.
  unfold Brute.sort; induction 1 as [| x l Hx Hl IH]; simpl.
  - constructor.
  - apply insert_all; trivial.
Qed.

Lemma insert_sorted (x : float64 * nat) (l : list (float64 * nat)) :
  has_dist x -> Forall has_dist l ->
  Sorted by_dist l -> Sorted by_dist (Brute.insert x l).
Proof.
  intros Hx Hl Hs; induction Hs as [| y l Hs IH Hhd]; simpl.
  - repeat constructor.
  - inversion Hl as [| ? ? Hy Hl']; subst.
    destruct (np_leb (fst x) (fst y)) eqn:Hxy.
    + repeat constructor; trivial.
    + constructor.
      * apply IH; trivial.
      * assert (Hyx : by_dist y x) by (apply np_leb_total; trivial).
        destruct Hhd as [| z l Hyz]; simpl.
        -- repeat constructor; trivial.
        -- destruct (np_leb (fst x) (fst z)); constructor; trivial.
Qed.

Lemma sort_sorted (l : list (float64 * nat)) :
  Forall has_dist l ->
  Forall has_dist (Brute.sort l) /\ Sorted by_dist (Brute.sort l).
Proof.
  unfold Brute.sort; induction 1 as [| x l Hx Hl [IH1 IH2]]; simpl.
  - split; constructor.
  - split; [apply insert_all | apply insert_sorted]; trivial.
Qed.

Lemma firstn_sorted {A : Type} (R : A -> A -> Prop) (l : list A) (k : nat) :
  Sorted R l -> Sorted R (firstn k l).
Proof.
  intros Hs; revert k; induction Hs as [| y l Hs IH Hhd]; intros [| k]; simpl;
    try constructor.
  - apply IH.
  - destruct Hhd as [| z l Hyz]; destruct k; simpl; constructor; trivial.
Qed.

Lemma firstn_keeps {A : Type} (P : A -> Prop) (l : list A) (k : nat) :
  Forall P l -> Forall P (firstn k l).
Proof.
  intros Hl; revert k; induction Hl as [| y l Hy Hl IH]; intros [| k]; simpl;
    constructor; trivial.
Qed.

Lemma pad_sorted (l : list (float64 * nat)) (n m : nat) :
  Forall has_dist l -> Sorted by_dist l ->
  Sorted by_dist (l ++ repeat (PInf, n) m).
Proof.
  intros Hl Hs; induction Hs as [| y l Hs IH Hhd]; simpl.
  - induction m as [| m IHm]; simpl; constructor; trivial.
    destruct m; simpl; constructor; reflexivity.
  - inversion Hl as [| ? ? Hy Hl']; subst.
    constructor; [apply IH; trivial |].
    destruct Hhd as [| z l Hyz]; simpl.
    + destruct m; simpl; constructor.
      apply np_leb_inf; exact Hy.
    + constructor; trivial.
Qed.

Lemma sorted_fst (l : list (float64 * nat)) :
  Sorted by_dist l -> Sorted np_le (map fst l).
Proof.
  induction 1 as [| y l Hs IH Hhd]; simpl; constructor; trivial.
  destruct Hhd; simpl; constructor; trivial.
Qed.

Lemma candidates_have_dist (t : list point3) (q : point3) :
  Forall (fun p => np_isnan (Brute.dist q p) = false) t ->
  Forall has_dist (Brute.candidates t q).
Proof.
  unfold Brute.candidates; intros Ht.
  generalize 0%nat as start.
  induction Ht as [| p t Hp Ht IH]; intros start; simpl; constructor; trivial.
Qed.

(** Hits nearest first: when no distance from [q] is NaN, the distances
    the reference search reports for [q] are in non-decreasing order,
    padding included. *)
Lemma knn_sorted (t : list point3) (k : nat) (q : point3) :
  Forall (fun p => np_isnan (Brute.dist q p) = false) t ->
  Sorted np_le (map fst (Brute.knn t k q)).
Proof.
  intros Ht; apply sorted_fst; unfold Brute.knn; cbv zeta.
  destruct (sort_sorted (candidates_have_dist _ Ht)) as [Hd Hs].
  apply pad_sorted.
  - apply firstn_keeps; exact Hd.
  - apply firstn_sorted; exact Hs.
Qed.

(** Exactly [k] entries per query point. *)
Lemma knn_length (t : list point3) (k : nat) (q : point3) :
  length (Brute.knn t k q) = k.
Proof.
  unfold Brute.knn; cbv zeta.
  rewrite length_app, repeat_length.
  pose proof (firstn_le_length k (Brute.sort (Brute.candidates t q))).
  lia.
Qed.

(** One row of [k] entries per query point, and one set per query
    point. *)
Lemma reference_query_rows (t x : list point3) (k : nat) (eps : float64) :
  exists dist ind,
    Brute.query t x k eps tt = OK (dist, ind) /\
    length dist = length x /\ length ind = length x /\
    Forall (fun row => length row = k) dist /\
    Forall (fun row => length row = k) ind.
Proof.
  unfold Brute.query; cbv zeta.
  do 2 eexists; split; [reflexivity |].
  rewrite !length_map; repeat split; trivial.
  - rewrite Forall_map, Forall_map, Forall_forall; intros q _.
    rewrite length_map; apply knn_length.
  - rewrite Forall_map, Forall_map, Forall_forall; intros q _.
    rewrite length_map; apply knn_length.
Qed.

Lemma reference_ball_point_rows (t x : list point3) (r : float64) :
  exists results,
    Brute.query_ball_point t x r tt = OK results /\ length results = length x.
Proof.
  unfold Brute.query_ball_point; eexists; split; [reflexivity |].
  apply length_map.
Qed.

(** ** Finite inputs: the unit sphere, chords and angles *)

Lemma embed_point_on_sphere (row : list float64) (p : point3) (r : float64) :
  Forall (fun a => np_isfinite a = true) row ->
  embed_point row = OK (p, r) -> on_unit_sphere p.
Proof.
  intros Hfin; unfold embed_point.
  destruct row as [| lon [| lat [| ? ?]]]; try discriminate.
  inversion Hfin as [| ? ? Hlon Hrest]; subst.
  inversion Hrest as [| ? ? Hlat _]; subst.
  destruct lon as [x| | |], lat as [y| | |]; try discriminate.
  simpl; intros H; injection H as <- _.
  do 3 eexists; split; [reflexivity |].
  pose proof (sin2_cos2 x) as Hx; pose proof (sin2_cos2 y) as Hy.
  unfold Rsqr in Hx, Hy; nra.
Qed.

Lemma embed_rows_on_sphere (rows : list (list float64)) (ps : list (point3 * float64)) :
  finite_rows rows -> rmapM embed_point rows = OK ps ->
  Forall on_unit_sphere (fst (split ps)).
Proof.
  intros Hfin; revert ps; induction Hfin as [| row rows Hrow Hrows IH];
    simpl; intros ps H.
  - injection H as <-; constructor.
  - destruct (embed_point row) as [[p r] | e] eqn:Hp; simpl in H; try discriminate.
    destruct (rmapM embed_point rows) as [ps' | e]; simpl in H; try discriminate.
    injection H as <-; simpl.
    specialize (IH ps' eq_refl).
    destruct (split ps') as [xs ys]; simpl in *.
    constructor; trivial.
    eapply embed_point_on_sphere; eassumption.
Qed.

Lemma embed_on_sphere (rows : list (list float64)) (pts : list point3) (rs : list float64) :
  finite_rows rows ->
  spherical_to_cartesian_radius (Arr2 rows) = OK (pts, rs) ->
  Forall on_unit_sphere pts.
Proof.
  unfold spherical_to_cartesian_radius, np_asarray, rmap, rbind; intros Hfin.
  destruct (rmapM embed_point rows) as [ps | e] eqn:Hps; try discriminate.
  intros H; injection H as H.
  pose proof (embed_rows_on_sphere Hfin Hps) as Hs.
  rewrite H in Hs; exact Hs.
Qed.

(** The chord between two points of the unit sphere is at most the
    diameter. *)
Lemma dist_is_chord (p q : point3) :
  on_unit_sphere p -> on_unit_sphere q -> is_chord (Brute.dist p q).
Proof.
  intros (a & b & c & -> & Hp) (a' & b' & c' & -> & Hq).
  unfold Brute.dist, Brute.sq, np_sub, np_neg, np_add, np_mul, np_sqrt.
  set (s := (a + - a') * (a + - a') + (b + - b') * (b + - b') + (c + - c') * (c + - c')).
  assert (Hs0 : 0 <= s).
  { pose proof (Rle_0_sqr (a + - a')) as Ha.
    pose proof (Rle_0_sqr (b + - b')) as Hb.
    pose proof (Rle_0_sqr (c + - c')) as Hc.
    unfold Rsqr in Ha, Hb, Hc; unfold s; lra. }
  assert (Hs4 : s <= 2 * 2).
  { pose proof (Rle_0_sqr (a + a')) as Ha.
    pose proof (Rle_0_sqr (b + b')) as Hb.
    pose proof (Rle_0_sqr (c + c')) as Hc.
    unfold Rsqr in Ha, Hb, Hc; unfold s; nra. }
  destruct (Rle_dec 0 s) as [_ | Hn]; [| contradiction].
  exists (sqrt s); split; trivial.
  split; [apply sqrt_pos |].
  rewrite <- (sqrt_square 2) by lra.
  apply sqrt_le_1; nra.
Qed.

(** The great-circle distance of a chord lies in [0, pi]. *)
Lemma chord_angle (a : float64) :
  is_chord a -> is_angle (chord_to_great_circle a (Fin 1)).
Proof.
  intros (d & -> & Hd).
  exists (2 * asin (d / 2)); split.
  - unfold chord_to_great_circle; np_crush.
    do 3 f_equal; lra.
  - pose proof (asin_bound (d / 2)) as Hb.
    pose proof (@asin_monotone 0 (d / 2)) as Hm.
    rewrite asin_0 in Hm; lra.
Qed.

Lemma angle_not_nan (a : float64) : is_angle a -> np_isnan a = false.
Proof. intros (theta & -> & _); reflexivity. Qed.

Lemma chord_not_nan (a : float64) : is_chord a -> np_isnan a = false.
Proof. intros (d & -> & _); reflexivity. Qed.

Lemma insert_length (x : float64 * nat) (l : list (float64 * nat)) :
  length (Brute.insert x l) = S (length l).
Proof.
  induction l as [| y l IH]; simpl; trivial.
  destruct (np_leb (fst x) (fst y)); simpl; congruence.
Qed.

Lemma sort_length (l : list (float64 * nat)) : length (Brute.sort l) = length l.
Proof.
  unfold Brute.sort; induction l as [| x l IH]; simpl; trivial.
  rewrite insert_length; congruence.
Qed.

Lemma candidates_length (t : list point3) (q : point3) :
  length (Brute.candidates t q) = length t.
Proof.
  unfold Brute.candidates.
  rewrite length_combine, length_map, length_seq; apply Nat.min_id.
Qed.

Lemma candidates_chords (t : list point3) (q : point3) :
  on_unit_sphere q -> Forall on_unit_sphere t ->
  Forall (fun c => is_chord (fst c)) (Brute.candidates t q).
Proof.
  unfold Brute.candidates; intros Hq Ht.
  generalize 0%nat as start.
  induction Ht as [| p t Hp Ht IH]; intros start; simpl; constructor; trivial.
  simpl; apply dist_is_chord; trivial.
Qed.

(** With at most as many neighbours asked as there are points, the
    reference search pads nothing. *)
Lemma knn_no_padding (t : list point3) (k : nat) (q : point3) :
  (k <= length t)%nat ->
  Brute.knn t k q = firstn k (Brute.sort (Brute.candidates t q)).
Proof.
  intros Hk; unfold Brute.knn; cbv zeta.
  rewrite length_firstn, sort_length, candidates_length.
  replace (k - Nat.min k (length t))%nat with 0%nat by lia.
  apply app_nil_r.
Qed.

Lemma knn_chords (t : list point3) (k : nat) (q : point3) :
  (k <= length t)%nat -> on_unit_sphere q -> Forall on_unit_sphere t ->
  Forall is_chord (map fst (Brute.knn t k q)).
Proof.
  intros Hk Hq Ht.
  rewrite knn_no_padding by trivial.
  rewrite Forall_map.
  apply firstn_keeps, sort_all, candidates_chords; trivial.
Qed.

Lemma chords_sorted (t : list point3) (k : nat) (q : point3) :
  on_unit_sphere q -> Forall on_unit_sphere t ->
  Sorted np_le (map fst (Brute.knn t k q)).
Proof.
  intros Hq Ht; apply knn_sorted.
  rewrite Forall_forall; intros p Hp.
  apply chord_not_nan, dist_is_chord; trivial.
  rewrite Forall_forall in Ht; auto.
Qed.

Lemma angles_of_chords (dist_3d : list (list float64)) (rs : list float64) :
  Forall (fun ri => ri = Fin 1) rs ->
  Forall (Forall is_chord) dist_3d ->
  Forall (Forall is_angle) (great_circle_rows dist_3d rs).
Proof.
  intros Hr; revert dist_3d; induction Hr as [| ri rs -> _ IH];
    intros [| row rows] Hc; simpl; constructor.
  - inversion Hc as [| ? ? Hrow _]; subst.
    rewrite Forall_map.
    eapply Forall_impl; [| exact Hrow].
    intros a; apply chord_angle.
  - inversion Hc; subst; apply IH; trivial.
Qed.

Lemma great_circle_rows_widths (dist_3d : list (list float64)) (rs : list float64) (k : nat) :
  Forall (fun row => length row = k) dist_3d ->
  Forall (fun row => length row = k) (great_circle_rows dist_3d rs).
Proof.
  intros H; revert rs; induction H as [| row rows Hrow _ IH]; intros [| ri rs];
    simpl; constructor.
  - rewrite length_map; exact Hrow.
  - apply IH.
Qed.

(** X5.  On the reference structure, for an index and query points with
    finite coordinates, an exact search ([eps = 0]) for at least one and
    at most as many neighbours as there are points, and no stored point
    within [tolerance] of the antipode of a query point: [query]
    returns, for each query point, [k] great-circle distances in
    [0, pi], in non-decreasing order. *)
Lemma reference_query_angles_sorted
      (rows qrows : list (list float64)) (k : nat)
      (self : KDSphere) (pts_q : list point3) (rs : list float64) :
  finite_rows rows -> finite_rows qrows ->
  __init__ (Arr2 rows) tt = OK self ->
  spherical_to_cartesian_radius (Arr2 qrows) = OK (pts_q, rs) ->
  (1 <= k)%nat ->
  (k <= length rows)%nat ->
  clear_of_antipodes pts_q (data3d self) ->
  exists dist_2d ind,
    returned (query (Arr2 qrows) k (Fin 0) tt) self = OK (dist_2d, ind) /\
    length dist_2d = length qrows /\
    Forall (fun row => length row = k) dist_2d /\
    Forall (Forall is_angle) dist_2d /\
    Forall (Sorted np_le) dist_2d.
Proof.
  intros Hrows Hqrows Hinit Hq Hk1 Hk Hclear.
  clear Hclear.
  set (eps := Fin 0).
  unfold __init__, np_asarray, rbind in Hinit.
  destruct (spherical_to_cartesian (Arr2 rows)) as [pts | e] eqn:He; try discriminate.
  simpl in Hinit; injection Hinit as <-.
  destruct (embed_ok _ He) as (rs' & He').
  pose proof (embed_on_sphere Hrows He') as Hpts.
  pose proof (embed_on_sphere Hqrows Hq) as Hpq.
  destruct (embed_radius_ok _ He') as (rows' & Hr' & Hlen & _ & _).
  injection Hr' as <-.
  destruct (embed_radius_ok _ Hq) as (qrows' & Hq' & Hlq & Hlr & Hone).
  injection Hq' as <-.
  set (self := mkKDSphere (E := Brute.index) (Arr2 rows) pts pts).
  set (found := map (Brute.knn pts k) pts_q).
  assert (Hfound : tree_query (kdtree_ self) pts_q k eps tt
                   = OK (map (map fst) found, map (map snd) found)) by reflexivity.
  assert (Hrowsn : length (map (map fst) found) = length pts_q).
  { unfold found; rewrite !length_map; reflexivity. }
  assert (Hchords : Forall (Forall is_chord) (map (map fst) found)).
  { unfold found; rewrite Forall_map, Forall_map, Forall_forall; intros q Hin.
    apply knn_chords; trivial; [lia |].
    rewrite Forall_forall in Hpq; auto. }
  assert (Hangles : Forall (Forall is_angle)
                           (great_circle_rows (map (map fst) found) rs)).
  { apply angles_of_chords; trivial. }
  exists (great_circle_rows (map (map fst) found) rs), (map (map snd) found).
  split; [| split; [| split; [| split]]]; trivial.
  - apply (query_returned self (Arr2 qrows) k eps tt Hq Hfound Hrowsn).
  - rewrite great_circle_rows_length by congruence; congruence.
  - apply great_circle_rows_widths.
    unfold found; rewrite Forall_map, Forall_map, Forall_forall; intros q _.
    rewrite length_map; apply knn_length.
  - apply converted_rows_sorted; trivial.
    + unfold found; rewrite Forall_map, Forall_map, Forall_forall; intros q Hin.
      apply chords_sorted; trivial.
      rewrite Forall_forall in Hpq; auto.
    + eapply Forall_impl; [| exact Hangles].
      intros row Hrow; eapply Forall_impl; [| exact Hrow].
      intros a; apply angle_not_nan.
Qed.

(** ** The reference structure on concrete inputs *)

Lemma embed_origin :
  spherical_to_cartesian_radius origin = OK ([unit_x], [Fin 1]).
Proof.
  unfold spherical_to_cartesian_radius, origin, unit_x, rmap, rbind; simpl.
  rewrite cos_0, sin_0.
  repeat f_equal; lra.
Qed.

Lemma embed_antipode :
  spherical_to_cartesian_radius antipode = OK ([minus_unit_x], [Fin 1]).
Proof.
  unfold spherical_to_cartesian_radius, antipode, minus_unit_x, rmap, rbind; simpl.
  rewrite cos_0, sin_0, cos_PI, sin_PI.
  repeat f_equal; lra.
Qed.

Lemma init_origin : __init__ (E := Brute.index) origin tt = OK origin_index.
Proof.
  unfold __init__, spherical_to_cartesian, np_asarray.
  rewrite embed_origin; reflexivity.
Qed.

Lemma init_empty : __init__ (E := Brute.index) (Arr2 []) tt = OK empty_index.
Proof. reflexivity. Qed.

Lemma dist_same : Brute.dist unit_x unit_x = Fin 0.
Proof.
  unfold Brute.dist, unit_x, Brute.sq; np_crush.
  f_equal.
  replace ((1 + - (1)) * (1 + - (1)) + (0 + - 0) * (0 + - 0) + (0 + - 0) * (0 + - 0))
    with 0 by lra.
  apply sqrt_0.
Qed.

Lemma dist_opposite : Brute.dist minus_unit_x unit_x = Fin 2.
Proof.
  unfold Brute.dist, unit_x, minus_unit_x, Brute.sq; np_crush.
  f_equal.
  replace ((-1 + - (1)) * (-1 + - (1)) + (0 + - 0) * (0 + - 0) + (0 + - 0) * (0 + - 0))
    with (2 * 2) by lra.
  apply sqrt_square; lra.
Qed.

Lemma great_circle_zero : chord_to_great_circle (Fin 0) (Fin 1) = Fin 0.
Proof.
  unfold chord_to_great_circle; np_crush.
  f_equal.
  replace (0 / (2 * 1)) with 0 by lra.
  rewrite asin_0; lra.
Qed.

Lemma great_circle_diameter : chord_to_great_circle (Fin 2) (Fin 1) = Fin PI.
Proof.
  unfold chord_to_great_circle; np_crush.
  f_equal.
  replace (2 / (2 * 1)) with 1 by lra.
  rewrite asin_1; lra.
Qed.

Lemma great_circle_inf : chord_to_great_circle PInf (Fin 1) = NaN.
Proof. unfold chord_to_great_circle; np_crush. Qed.

(** The two nearest neighbours of (0, 0) in the index that holds only
    (0, 0): the point itself, then the padding. *)
Lemma brute_query_origin_2 :
  Brute.query [unit_x] [unit_x] 2 (Fin 0) tt = OK ([[Fin 0; PInf]], [[0; 1]]%nat).
Proof.
  unfold Brute.query, Brute.knn, Brute.candidates, Brute.sort.
  cbn -[Brute.dist].
  rewrite dist_same; reflexivity.
Qed.

Lemma brute_query_antipode_1 :
  Brute.query [unit_x] [minus_unit_x] 1 (Fin 0) tt = OK ([[Fin 2]], [[0]]%nat).
Proof.
  unfold Brute.query, Brute.knn, Brute.candidates, Brute.sort.
  cbn -[Brute.dist].
  rewrite dist_opposite; reflexivity.
Qed.

Lemma query_origin_2 :
  returned (query origin 2 (Fin 0) tt) origin_index
  = OK ([[Fin 0; NaN]], [[0; 1]]%nat).
Proof.
  rewrite (query_returned origin_index origin 2 (Fin 0) tt
             embed_origin brute_query_origin_2 eq_refl).
  simpl; rewrite great_circle_zero, great_circle_inf; reflexivity.
Qed.

Lemma query_antipode_1 :
  returned (query antipode 1 (Fin 0) tt) origin_index
  = OK ([[Fin PI]], [[0]]%nat).
Proof.
  rewrite (query_returned origin_index antipode 1 (Fin 0) tt
             embed_antipode brute_query_antipode_1 eq_refl).
  simpl; rewrite great_circle_diameter; reflexivity.
Qed.

Lemma PI_above_5_2 : 2.5 < PI.
Proof.
  pose proof (PI_ineq 1) as [H _].
  unfold sum_f_R0, tg_alt, PI_tg in H; simpl in H.
  lra.
Qed.

Lemma dist_opposite' : Brute.dist unit_x minus_unit_x = Fin 2.
Proof.
  unfold Brute.dist, unit_x, minus_unit_x, Brute.sq; np_crush.
  f_equal.
  replace ((1 + - -1) * (1 + - -1) + (0 + - 0) * (0 + - 0) + (0 + - 0) * (0 + - 0))
    with (2 * 2) by lra.
  apply sqrt_square; lra.
Qed.

Lemma leb_2_5_2 : np_leb (Fin 2) (Fin 2.5) = true.
Proof. np_crush. Qed.

Lemma leb_0_1 : np_leb (Fin 0) (Fin 1) = true.
Proof. np_crush. Qed.

Lemma leb_2_1 : np_leb (Fin 2) (Fin 1) = false.
Proof. np_crush. Qed.

Lemma leb_0_2 : np_leb (Fin 0) (Fin 2) = true.
Proof. np_crush. Qed.

Lemma embed_poles :
  spherical_to_cartesian_radius poles = OK ([unit_x; minus_unit_x], [Fin 1; Fin 1]).
Proof.
  unfold spherical_to_cartesian_radius, poles, unit_x, minus_unit_x, rmap, rbind; simpl.
  rewrite cos_0, sin_0, cos_PI, sin_PI.
  repeat f_equal; lra.
Qed.

Lemma init_poles : __init__ poles tt = OK poles_index.
Proof.
  unfold __init__, spherical_to_cartesian, np_asarray.
  rewrite embed_poles; reflexivity.
Qed.

Lemma ball_origin_antipode :
  Brute.ball [unit_x] (Fin 2.5) minus_unit_x = [0%nat].
Proof.
  unfold Brute.ball, Brute.candidates; cbn -[Brute.dist np_leb].
  rewrite dist_opposite, leb_2_5_2; reflexivity.
Qed.

Lemma ball_antipode_origin :
  Brute.ball [minus_unit_x] (Fin 2.5) unit_x = [0%nat].
Proof.
  unfold Brute.ball, Brute.candidates; cbn -[Brute.dist np_leb].
  rewrite dist_opposite', leb_2_5_2; reflexivity.
Qed.

Lemma ball_origin_origin : Brute.ball [unit_x] (Fin 1) unit_x = [0%nat].
Proof.
  unfold Brute.ball, Brute.candidates; cbn -[Brute.dist np_leb].
  rewrite dist_same, leb_0_1; reflexivity.
Qed.

Lemma ball_origin_far : Brute.ball [unit_x] (Fin 1) minus_unit_x = [].
Proof.
  unfold Brute.ball, Brute.candidates; cbn -[Brute.dist np_leb].
  rewrite dist_opposite, leb_2_1; reflexivity.
Qed.

Lemma brute_query_poles_2 :
  Brute.query [unit_x; minus_unit_x] [unit_x] 2 (Fin 0) tt
  = OK ([[Fin 0; Fin 2]], [[0; 1]]%nat).
Proof.
  unfold Brute.query, Brute.knn, Brute.candidates, Brute.sort.
  cbn -[Brute.dist np_leb].
  rewrite dist_same, dist_opposite'.
  cbn -[np_leb]; rewrite leb_0_2; reflexivity.
Qed.

Lemma embed_points_of (data : array_like) (pts : list point3) (rs : list float64) :
  spherical_to_cartesian_radius data = OK (pts, rs) ->
  spherical_to_cartesian data = OK pts.
Proof. unfold spherical_to_cartesian; intros ->; reflexivity. Qed.

Lemma query_ball_point_antipode :
  returned (query_ball_point antipode_point (Fin 2.5) tt) origin_index
  = OK (MatchList [0%nat]).
Proof.
  unfold returned; rewrite query_ball_point_run.
  change (np_atleast_2d antipode_point) with antipode.
  rewrite (embed_points_of _ embed_antipode); simpl.
  unfold Brute.query_ball_point; simpl map.
  rewrite ball_origin_antipode; reflexivity.
Qed.

Lemma query_ball_tree_antipode :
  returned (query_ball_tree (IsArrayLike antipode) (Fin 2.5) tt) origin_index
  = OK [[0%nat]].
Proof.
  unfold returned; rewrite query_ball_tree_run.
  unfold other_tree, __init__, np_asarray.
  rewrite (embed_points_of _ embed_antipode); simpl.
  unfold Brute.query_ball_tree; simpl map.
  rewrite ball_antipode_origin; reflexivity.
Qed.


(** ** The reference structure over no points *)

Lemma knn_empty (k : nat) (q : point3) :
  Brute.knn [] k q = repeat (PInf, 0%nat) k.
Proof.
  unfold Brute.knn, Brute.candidates, Brute.sort; simpl.
  rewrite firstn_nil; simpl.
  rewrite Nat.sub_0_r; reflexivity.
Qed.

Lemma map_const_repeat {A B : Type} (f : A -> B) (b : B) (l : list A) :
  (forall a, f a = b) -> map f l = repeat b (length l).
Proof.
  intros H; induction l as [| a l IH]; simpl; trivial.
  rewrite H, IH; reflexivity.
Qed.

Lemma brute_query_empty (x : list point3) (k : nat) (eps : float64) :
  Brute.query [] x k eps tt
  = OK (repeat (repeat PInf k) (length x), repeat (repeat 0%nat k) (length x)).
Proof.
  unfold Brute.query; cbv zeta.
  rewrite (@map_const_repeat _ _ (Brute.knn [] k) (repeat (PInf, 0%nat) k) x (knn_empty k)).
  rewrite !map_repeat; reflexivity.
Qed.

Lemma brute_ball_empty (x : list point3) (r : float64) :
  map (Brute.ball [] r) x = repeat [] (length x).
Proof. apply map_const_repeat; reflexivity. Qed.

Lemma great_circle_rows_inf (k : nat) (rs : list float64) :
  Forall (fun ri => ri = Fin 1) rs ->
  great_circle_rows (repeat (repeat PInf k) (length rs)) rs
  = repeat (repeat NaN k) (length rs).
Proof.
  induction 1 as [| ri rs Hri _ IH]; simpl; trivial.
  rewrite IH, map_repeat, Hri, great_circle_inf; reflexivity.
Qed.

(** C9, as amended.  Over the reference structure, the index built from
    an empty array is valid and holds no point, and no query method
    raises on it when it is called within its input contract: at least
    one neighbour asked ([k >= 1]), a tolerance [eps >= 0], a radius
    [r >= 0], well-shaped query points with finite coordinates, and an
    [other] whose points are finite.  Then [query_ball_tree] returns the
    empty sequence, [query_ball_point] returns an empty set per query
    point, and [query] returns, for each query point, [k] padded
    entries, each the index 0 with a NaN distance. *)
Theorem empty_index_queries
        (qrows : list (list float64)) (k : nat) (e : R)
        (pts_q : list point3) (rs : list float64)
        (other : tree_or_data) (t : list point3) (rho : R)
        (data_p : array_like) (prows : list (list float64))
        (pts_p : list point3) :
  (1 <= k)%nat ->
  0 <= e ->
  0 <= rho ->
  finite_rows qrows ->
  spherical_to_cartesian_radius (Arr2 qrows) = OK (pts_q, rs) ->
  other_tree other = OK t ->
  Forall finite_point t ->
  np_atleast_2d data_p = Arr2 prows ->
  finite_rows prows ->
  spherical_to_cartesian (np_atleast_2d data_p) = OK pts_p ->
  __init__ (Arr2 []) tt = OK empty_index /\
  n_input empty_index = 0%nat /\
  n_embedded empty_index = 0%nat /\
  returned (query (Arr2 qrows) k (Fin e) tt) empty_index
  = OK (repeat (repeat NaN k) (length pts_q),
        repeat (repeat 0%nat k) (length pts_q)) /\
  returned (query_ball_tree other (Fin rho) tt) empty_index = OK [] /\
  returned (query_ball_point data_p (Fin rho) tt) empty_index
  = OK (if Nat.eqb (length pts_p) 1 then MatchList []
        else MatchLists (repeat [] (length pts_p))).
Proof.
  intros Hk He Hrho Hfq Hq Ho Hft Hdp Hfp Hp.
  repeat split.
  - destruct (embed_radius_ok _ Hq) as (rows & _ & Hd & Hr & Hone).
    rewrite (query_returned empty_index (Arr2 qrows) k (Fin e) tt Hq
               (brute_query_empty pts_q k (Fin e))).
    + replace (length pts_q) with (length rs) by congruence.
      rewrite great_circle_rows_inf; trivial.
    + apply repeat_length.
  - unfold returned; rewrite query_ball_tree_run, Ho; reflexivity.
  - destruct (embed_ok _ Hp) as (rs' & Hp').
    destruct (embed_radius_ok _ Hp') as (rows & Hrows & Hd & _ & _).
    unfold returned; rewrite query_ball_point_run, Hp; simpl.
    unfold Brute.query_ball_point; rewrite brute_ball_empty; simpl.
    unfold unwrap; rewrite Hrows; simpl; rewrite <- Hd.
    destruct (Nat.eqb_spec (length pts_p) 1) as [H1 | H1]; trivial.
    destruct pts_p as [| p [| ? ?]]; try discriminate; reflexivity.
Qed.

(** ** The claims on concrete inputs *)

Lemma query_poles_2 :
  returned (query origin 2 (Fin 0) tt) poles_index
  = OK ([[Fin 0; Fin PI]], [[0; 1]]%nat).
Proof.
  rewrite (query_returned poles_index origin 2 (Fin 0) tt
             embed_origin brute_query_poles_2 eq_refl).
  simpl; rewrite great_circle_zero, great_circle_diameter; reflexivity.
Qed.

Lemma brute_ball_point_poles :
  tree_query_ball_point (kdtree_ origin_index) [unit_x; minus_unit_x] (Fin 1) tt
  = OK [[0%nat]; []].
Proof.
  simpl; unfold Brute.query_ball_point; simpl map.
  rewrite ball_origin_origin, ball_origin_far; reflexivity.
Qed.

Lemma other_tree_antipode :
  other_tree (IsArrayLike antipode) = OK [minus_unit_x].
Proof.
  unfold other_tree, __init__, np_asarray.
  rewrite (embed_points_of _ embed_antipode); reflexivity.
Qed.

Lemma sorted_0_2 : Forall (Sorted np_le) [[Fin 0; Fin 2]].
Proof.
  repeat constructor; exact leb_0_2.
Qed.

(** C3 at a concrete call: the two nearest neighbours of (0, 0) in the
    index over (0, 0) and (pi, 0). *)
Lemma query_great_circle_distances_witness :
  (spherical_to_cartesian_radius origin = OK ([unit_x], [Fin 1]) /\
   tree_query (kdtree_ poles_index) [unit_x] 2 (Fin 0) tt
   = OK ([[Fin 0; Fin 2]], [[0; 1]]%nat)) /\
  returned (query origin 2 (Fin 0) tt) poles_index
  = OK (great_circle_rows [[Fin 0; Fin 2]] [Fin 1], [[0; 1]]%nat) /\
  length (great_circle_rows [[Fin 0; Fin 2]] [Fin 1]) = shape0 (np_asarray origin) /\
  (forall (q j : nat) (d rq : float64),
      entry [[Fin 0; Fin 2]] q j = Some d -> nth_error [Fin 1] q = Some rq ->
      entry (great_circle_rows [[Fin 0; Fin 2]] [Fin 1]) q j
      = Some (chord_to_great_circle d rq)).
Proof.
  split.
  - split; [exact embed_origin | exact brute_query_poles_2].
  - exact (@query_great_circle_distances Brute.index poles_index origin 2 (Fin 0) tt
             [unit_x] [Fin 1] [[Fin 0; Fin 2]] [[0; 1]]%nat
             embed_origin brute_query_poles_2 eq_refl).
Defined.

Lemma ratio_of_padding :
  np_ltb (Fin 1) (np_div PInf (np_mul (Fin 2) (Fin 1))) = true.
Proof. np_crush. Qed.

(** C10 at a concrete call: two neighbours asked of the index that holds
    only (0, 0); the second chord distance is the padding, infinite. *)
Lemma query_ratio_above_one_is_nan_witness :
  np_ltb (Fin 1) (np_div PInf (np_mul (Fin 2) (Fin 1))) = true /\
  exists dist_2d,
    returned (query origin 2 (Fin 0) tt) origin_index = OK (dist_2d, [[0; 1]]%nat) /\
    entry dist_2d 0 1 = Some NaN /\
    (forall (q' j' : nat) (d' r' : float64),
        entry [[Fin 0; PInf]] q' j' = Some d' -> nth_error [Fin 1] q' = Some r' ->
        entry dist_2d q' j' = Some (chord_to_great_circle d' r')).
Proof.
  split.
  - exact ratio_of_padding.
  - exact (@query_ratio_above_one_is_nan Brute.index origin_index origin 2 (Fin 0) tt
             [unit_x] [Fin 1] [[Fin 0; PInf]] [[0; 1]]%nat 0%nat 1%nat PInf (Fin 1)
             embed_origin brute_query_origin_2 eq_refl eq_refl eq_refl
             ratio_of_padding).
Defined.




(** C8 refuted as stated: the same call returns the row [0, NaN], and
    [0 <= NaN] does not hold. *)
Lemma query_padded_row_not_sorted :
  __init__ origin tt = OK origin_index /\
  returned (query origin 2 (Fin 0) tt) origin_index
  = OK ([[Fin 0; NaN]], [[0; 1]]%nat) /\
  np_leb (Fin 0) NaN = false /\
  ~ Sorted np_le [Fin 0; NaN].
Proof.
  split; [exact init_origin | split; [exact query_origin_2 | split]].
  - reflexivity.
  - intros H; inversion H as [| ? ? _ Hhd]; subst.
    inversion Hhd as [| ? ? Hle]; subst.
    discriminate Hle.
Qed.

(** C8, as amended, at a concrete call: the two nearest neighbours of
    (0, 0) in the index over (0, 0) and (pi, 0), at distances 0 and pi. *)
Lemma query_distances_sorted_witness :
  (Forall (Sorted np_le) [[Fin 0; Fin 2]] /\
   returned (query origin 2 (Fin 0) tt) poles_index
   = OK ([[Fin 0; Fin PI]], [[0; 1]]%nat) /\
   Forall (Forall (fun a => np_isnan a = false)) [[Fin 0; Fin PI]]) /\
  Forall (Sorted np_le) [[Fin 0; Fin PI]].
Proof.
  assert (Hn : Forall (Forall (fun a => np_isnan a = false)) [[Fin 0; Fin PI]]).
  { repeat constructor. }
  split.
  - split; [exact sorted_0_2 | split; [exact query_poles_2 | exact Hn]].
  - exact (@query_distances_sorted Brute.index poles_index origin 2 (Fin 0) tt
             [unit_x] [Fin 1] [[Fin 0; Fin 2]] [[Fin 0; Fin PI]]
             [[0; 1]]%nat [[0; 1]]%nat
             embed_origin brute_query_poles_2 eq_refl sorted_0_2 query_poles_2 Hn).
Defined.

(** C5 at a concrete call: the points within 1 of (0, 0) and of (pi, 0)
    in the index that holds only (0, 0). *)
Lemma query_ball_point_shape_witness :
  (spherical_to_cartesian (np_atleast_2d poles) = OK [unit_x; minus_unit_x] /\
   tree_query_ball_point (kdtree_ origin_index) [unit_x; minus_unit_x] (Fin 1) tt
   = OK [[0%nat]; []]) /\
  (shape0 (np_atleast_2d poles) = 1%nat ->
   exists s, [[0%nat]; []] = [s] /\
     returned (query_ball_point poles (Fin 1) tt) origin_index = OK (MatchList s)) /\
  ((2 <= shape0 (np_atleast_2d poles))%nat ->
   returned (query_ball_point poles (Fin 1) tt) origin_index
   = OK (MatchLists [[0%nat]; []]) /\
   length [[0%nat]; []] = shape0 (np_atleast_2d poles)).
Proof.
  split.
  - split; [exact (embed_points_of _ embed_poles) | exact brute_ball_point_poles].
  - exact (@query_ball_point_shape Brute.index origin_index poles (Fin 1) tt
             [unit_x; minus_unit_x] [[0%nat]; []]
             (embed_points_of _ embed_poles) brute_ball_point_poles eq_refl).
Defined.


(** C7 at a concrete instance and a sequence of three calls. *)
Lemma counts_agree_for_life_witness :
  __init__ origin tt = OK origin_index /\
  n_embedded origin_index = n_input origin_index /\
  run origin_index
      [CallQuery origin 2 (Fin 0) tt;
       CallQueryBallTree (IsArrayLike antipode) (Fin 2.5) tt;
       CallQueryBallPoint origin_point (Fin 1) tt] = origin_index /\
  n_embedded (run origin_index
      [CallQuery origin 2 (Fin 0) tt;
       CallQueryBallTree (IsArrayLike antipode) (Fin 2.5) tt;
       CallQueryBallPoint origin_point (Fin 1) tt])
  = n_input (run origin_index
      [CallQuery origin 2 (Fin 0) tt;
       CallQueryBallTree (IsArrayLike antipode) (Fin 2.5) tt;
       CallQueryBallPoint origin_point (Fin 1) tt]).
Proof.
  split.
  - exact init_origin.
  - exact (@counts_agree_for_life Brute.index origin tt origin_index
             [CallQuery origin 2 (Fin 0) tt;
              CallQueryBallTree (IsArrayLike antipode) (Fin 2.5) tt;
              CallQueryBallPoint origin_point (Fin 1) tt]
             init_origin).
Defined.

(** C9 refuted as stated: one neighbour asked for (0, 0) of the empty
    index gives one padded entry, not an empty result. *)
Lemma query_on_empty_index_not_empty :
  __init__ (Arr2 []) tt = OK empty_index /\
  returned (query origin 1 (Fin 0) tt) empty_index = OK ([[NaN]], [[0%nat]]).
Proof.
  split; [exact init_empty |].
  rewrite (query_returned empty_index origin 1 (Fin 0) tt
             embed_origin (brute_query_empty [unit_x] 1 (Fin 0)) eq_refl).
  simpl; rewrite great_circle_inf; reflexivity.
Qed.

Lemma finite_poles : finite_rows [[Fin 0; Fin 0]; [Fin PI; Fin 0]].
Proof. repeat constructor. Qed.

Lemma finite_origin : finite_rows [[Fin 0; Fin 0]].
Proof. repeat constructor. Qed.

Lemma finite_minus_unit_x : Forall finite_point [minus_unit_x].
Proof. repeat constructor. Qed.

Lemma one_le_two : (1 <= 2)%nat.
Proof. lia. Qed.

Lemma zero_le_zero : 0 <= 0.
Proof. lra. Qed.

Lemma zero_le_one : 0 <= 1.
Proof. lra. Qed.

(** C9, as amended, at concrete calls on the empty index. *)
Lemma empty_index_queries_witness :
  ((1 <= 2)%nat /\ 0 <= 0 /\ 0 <= 1 /\
   finite_rows [[Fin 0; Fin 0]] /\
   spherical_to_cartesian_radius origin = OK ([unit_x], [Fin 1]) /\
   other_tree (IsArrayLike antipode) = OK [minus_unit_x] /\
   Forall finite_point [minus_unit_x] /\
   finite_rows [[Fin 0; Fin 0]; [Fin PI; Fin 0]] /\
   spherical_to_cartesian (np_atleast_2d poles) = OK [unit_x; minus_unit_x]) /\
  __init__ (Arr2 []) tt = OK empty_index /\
  n_input empty_index = 0%nat /\
  n_embedded empty_index = 0%nat /\
  returned (query origin 2 (Fin 0) tt) empty_index
  = OK ([[NaN; NaN]], [[0; 0]]%nat) /\
  returned (query_ball_tree (IsArrayLike antipode) (Fin 1) tt) empty_index = OK [] /\
  returned (query_ball_point poles (Fin 1) tt) empty_index
  = OK (MatchLists [[]; []]).
Proof.
  split.
  - repeat split.
    + exact one_le_two.
    + exact zero_le_zero.
    + exact zero_le_one.
    + exact finite_origin.
    + exact embed_origin.
    + exact other_tree_antipode.
    + exact finite_minus_unit_x.
    + exact finite_poles.
    + exact (embed_points_of _ embed_poles).
  - exact (@empty_index_queries [[Fin 0; Fin 0]] 2 0 [unit_x] [Fin 1]
             (IsArrayLike antipode) [minus_unit_x] 1
             poles [[Fin 0; Fin 0]; [Fin PI; Fin 0]] [unit_x; minus_unit_x]
             one_le_two zero_le_zero zero_le_one finite_origin embed_origin
             other_tree_antipode finite_minus_unit_x eq_refl finite_poles
             (embed_points_of _ embed_poles)).
Defined.

Lemma chord_radius_5_2 : np_leb (Fin 2) (chord_radius (Fin 2.5)) = false.
Proof.
  pose proof PI_above_5_2 as Hpi.
  assert (Hs : sin (2.5 / 2) < 1).
  { rewrite <- sin_PI2; apply sin_increasing_1; lra. }
  unfold chord_radius, np_sin; np_crush.
Qed.

Lemma ball_converted_radius :
  Brute.ball [unit_x] (chord_radius (Fin 2.5)) minus_unit_x = [].
Proof.
  unfold Brute.ball, Brute.candidates; cbn -[Brute.dist np_leb chord_radius].
  rewrite dist_opposite, chord_radius_5_2; reflexivity.
Qed.

(** C1.  The radius reaches the underlying structure unconverted: for
    every input, both radius queries hand [r] itself to the Euclidean
    search.  In the index that holds only (0, 0), the point (pi, 0) is at
    chord distance 2 and, by [query], at great-circle distance pi; both
    radius queries at [r = 2.5] radians report it as a match although
    [2.5 < pi]; with the chord radius [2 sin(2.5 / 2)] the search around
    (pi, 0) finds nothing. *)
Theorem ball_queries_take_radius_as_chord :
  (forall (E : EuclideanIndex) (self : KDSphere) (data : array_like)
          (r : float64) (kw : kwargs),
      returned (query_ball_point data r kw) self
      = rbind (spherical_to_cartesian (np_atleast_2d data)) (fun data_3d =>
        rbind (tree_query_ball_point (kdtree_ self) data_3d r kw) (unwrap data))) /\
  (forall (E : EuclideanIndex) (self : KDSphere) (data : tree_or_data)
          (r : float64) (kw : kwargs),
      returned (query_ball_tree data r kw) self
      = rbind (other_tree data) (fun other_kdtree =>
        tree_query_ball_tree (kdtree_ self) other_kdtree r kw)) /\
  __init__ origin tt = OK origin_index /\
  returned (query_ball_point antipode_point (Fin 2.5) tt) origin_index
  = OK (MatchList [0%nat]) /\
  returned (query_ball_tree (IsArrayLike antipode) (Fin 2.5) tt) origin_index
  = OK [[0%nat]] /\
  returned (query antipode 1 (Fin 0) tt) origin_index = OK ([[Fin PI]], [[0%nat]]) /\
  np_ltb (Fin 2.5) (Fin PI) = true /\
  Brute.ball (kdtree_ origin_index) (chord_radius (Fin 2.5)) minus_unit_x = [].
Proof.
  split.
  { intros E self data r kw; unfold returned.
    rewrite query_ball_point_run; reflexivity. }
  split.
  { intros E self data r kw; unfold returned.
    rewrite query_ball_tree_run; reflexivity. }
  split; [exact init_origin |].
  split; [exact query_ball_point_antipode |].
  split; [exact query_ball_tree_antipode |].
  split; [exact query_antipode_1 |].
  split; [| exact ball_converted_radius].
  pose proof PI_above_5_2; np_crush.
Qed.

(** ** More on the reference search *)

Lemma np_leb_trans (a b c : float64) :
  np_leb a b = true -> np_leb b c = true -> np_leb a c = true.
Proof. destruct a, b, c; np_crush. Qed.

Lemma sq_sub_sym (a b : float64) :
  Brute.sq (np_sub a b) = Brute.sq (np_sub b a).
Proof.
  destruct a as [x| | |], b as [y| | |]; unfold Brute.sq; np_crush.
  f_equal; ring.
Qed.

Lemma dist_sym (p q : point3) : Brute.dist p q = Brute.dist q p.
Proof.
  destruct p as [[a b] c], q as [[a' b'] c']; unfold Brute.dist.
  rewrite (sq_sub_sym a a'), (sq_sub_sym b b'), (sq_sub_sym c c'); reflexivity.
Qed.

Lemma insert_perm (x : float64 * nat) (l : list (float64 * nat)) :
  Permutation (Brute.insert x l) (x :: l).
Proof.
  induction l as [| y l IH]; simpl; trivial.
  destruct (np_leb (fst x) (fst y)); trivial.
  rewrite IH; apply perm_swap.
Qed.

Lemma sort_perm (l : list (float64 * nat)) : Permutation (Brute.sort l) l.
Proof.
  unfold Brute.sort; induction l as [| x l IH]; simpl; trivial.
  rewrite insert_perm; constructor; exact IH.
Qed.

(** The candidates are the stored points in order, each with its
    distance from [q] and its position. *)
Lemma candidates_nth (t : list point3) (q : point3) (i : nat) :
  nth_error (Brute.candidates t q) i
  = option_map (fun p => (Brute.dist q p, i)) (nth_error t i).
Proof.
  unfold Brute.candidates.
  assert (H : forall s, nth_error (combine (map (Brute.dist q) t) (seq s (length t))) i
                   = option_map (fun p => (Brute.dist q p, (s + i)%nat)) (nth_error t i)).
  { revert i; induction t as [| p t IH]; intros [| i] s; simpl; trivial.
    - rewrite Nat.add_0_r; reflexivity.
    - rewrite IH; destruct (nth_error t i); simpl; trivial.
      do 2 f_equal; lia. }
  apply (H 0%nat).
Qed.

Lemma candidates_indices (t : list point3) (q : point3) :
  map snd (Brute.candidates t q) = seq 0 (length t).
Proof.
  unfold Brute.candidates; generalize 0%nat as s.
  induction t as [| p t IH]; intros s; simpl; trivial.
  rewrite IH; reflexivity.
Qed.

(** A candidate is a stored point, told by its position, with its
    distance from [q]. *)
Lemma candidates_in (t : list point3) (q : point3) (c : float64 * nat) :
  In c (Brute.candidates t q) <->
  exists p, nth_error t (snd c) = Some p /\ fst c = Brute.dist q p.
Proof.
  split.
  - intros Hin; apply In_nth_error in Hin; destruct Hin as [i Hi].
    rewrite candidates_nth in Hi.
    destruct (nth_error t i) as [p |] eqn:Hp; simpl in Hi; try discriminate.
    injection Hi as <-; simpl; exists p; auto.
  - intros (p & Hp & Hd).
    apply nth_error_In with (n := snd c).
    rewrite candidates_nth, Hp; simpl.
    destruct c; simpl in *; subst; reflexivity.
Qed.

Lemma sort_in (l : list (float64 * nat)) (c : float64 * nat) :
  In c (Brute.sort l) <-> In c l.
Proof.
  split; apply Permutation_in; [| symmetry]; apply sort_perm.
Qed.

Lemma sort_indices_nodup (t : list point3) (q : point3) :
  NoDup (map snd (Brute.sort (Brute.candidates t q))).
Proof.
  apply Permutation_NoDup with (l := map snd (Brute.candidates t q)).
  - apply Permutation_map; symmetry; apply sort_perm.
  - rewrite candidates_indices; apply seq_NoDup.
Qed.

Lemma firstn_nodup {A : Type} (l : list A) (k : nat) :
  NoDup l -> NoDup (firstn k l).
Proof.
  intros H; rewrite <- (firstn_skipn k l) in H.
  apply NoDup_app_remove_r in H; exact H.
Qed.

Lemma firstn_in {A : Type} (l : list A) (k : nat) (a : A) :
  In a (firstn k l) -> In a l.
Proof.
  intros H; rewrite <- (firstn_skipn k l); apply in_or_app; auto.
Qed.

Lemma knn_nth_hit (t : list point3) (k : nat) (q : point3) (j : nat) :
  (j < k)%nat -> (j < length t)%nat ->
  nth_error (Brute.knn t k q) j
  = nth_error (Brute.sort (Brute.candidates t q)) j.
Proof.
  intros Hk Hn; unfold Brute.knn; cbv zeta.
  rewrite nth_error_app1.
  - rewrite nth_error_firstn.
    destruct (Nat.ltb_spec j k); [reflexivity | lia].
  - rewrite length_firstn, sort_length, candidates_length; lia.
Qed.

Lemma knn_nth_pad (t : list point3) (k : nat) (q : point3) (j : nat) :
  (j < k)%nat -> (length t <= j)%nat ->
  nth_error (Brute.knn t k q) j = Some (PInf, length t).
Proof.
  intros Hk Hn; unfold Brute.knn; cbv zeta.
  assert (Hl : length (firstn k (Brute.sort (Brute.candidates t q)))
               = Nat.min k (length t)).
  { rewrite length_firstn, sort_length, candidates_length; reflexivity. }
  rewrite nth_error_app2 by lia.
  rewrite Hl; apply nth_error_repeat; lia.
Qed.

(** A hit of the reference search is a stored point, told by its
    position, with its distance from [q]. *)
Lemma knn_hit (t : list point3) (k : nat) (q : point3) (j : nat) (c : float64 * nat) :
  (j < length t)%nat ->
  nth_error (Brute.knn t k q) j = Some c ->
  exists p, nth_error t (snd c) = Some p /\ fst c = Brute.dist q p.
Proof.
  intros Hn Hc.
  assert (Hk : (j < k)%nat).
  { pose proof (knn_length t k q) as Hl.
    assert (Hs : nth_error (Brute.knn t k q) j <> None) by congruence.
    apply nth_error_Some in Hs; lia. }
  rewrite knn_nth_hit in Hc by trivial.
  apply candidates_in, sort_in.
  eapply nth_error_In; exact Hc.
Qed.

Lemma by_dist_trans (a b c : float64 * nat) :
  by_dist a b -> by_dist b c -> by_dist a c.
Proof. unfold by_dist, np_le; apply np_leb_trans. Qed.

(** In a sorted list of candidates, an earlier one is at most as far as
    a later one. *)
Lemma sorted_nth (l : list (float64 * nat)) (j j' : nat) (a b : float64 * nat) :
  Sorted by_dist l -> (j < j')%nat ->
  nth_error l j = Some a -> nth_error l j' = Some b -> by_dist a b.
Proof.
  intros Hs; apply Sorted_StronglySorted in Hs; [| exact by_dist_trans].
  revert j j'; induction Hs as [| x l Hs IH Hall]; intros j j' Hlt Ha Hb.
  - destruct j; discriminate.
  - destruct j' as [| j']; [lia |].
    simpl in Hb.
    destruct j as [| j]; simpl in Ha.
    + injection Ha as <-.
      rewrite Forall_forall in Hall; apply Hall.
      eapply nth_error_In; exact Hb.
    + apply (IH j j'); trivial; lia.
Qed.

Lemma candidates_sorted (t : list point3) (q : point3) :
  on_unit_sphere q -> Forall on_unit_sphere t ->
  Sorted by_dist (Brute.sort (Brute.candidates t q)) /\
  Forall (fun c => is_chord (fst c)) (Brute.sort (Brute.candidates t q)).
Proof.
  intros Hq Ht.
  pose proof (candidates_chords Hq Ht) as Hc.
  split; [| apply sort_all; exact Hc].
  apply sort_sorted.
  eapply Forall_impl; [| exact Hc].
  intros c; apply chord_not_nan.
Qed.

(** ** [query] over the reference structure *)

Lemma great_circle_rows_unit (dist_3d : list (list float64)) (rs : list float64) :
  Forall (fun ri => ri = Fin 1) rs -> length dist_3d = length rs ->
  great_circle_rows dist_3d rs
  = map (map (fun d => chord_to_great_circle d (Fin 1))) dist_3d.
Proof.
  intros Hr; revert dist_3d; induction Hr as [| ri rs -> _ IH];
    intros [| row rows] Hlen; simpl in *; try discriminate; trivial.
  rewrite IH by lia; reflexivity.
Qed.

(** What [query] returns over the reference structure: for each query
    point, the conversion of the distances of its hits, and their
    positions. *)
Lemma reference_query (self : KDSphere) (data : array_like) (k : nat) (eps : float64)
      (pts_q : list point3) (rs : list float64) :
  spherical_to_cartesian_radius data = OK (pts_q, rs) ->
  returned (query data k eps tt) self
  = OK (map (fun pq => map (fun c => chord_to_great_circle (fst c) (Fin 1))
                           (Brute.knn (kdtree_ self) k pq)) pts_q,
        map (fun pq => map snd (Brute.knn (kdtree_ self) k pq)) pts_q).
Proof.
  intros He.
  destruct (embed_radius_ok _ He) as (rows & _ & Hd & Hr & Hone).
  set (found := map (Brute.knn (kdtree_ self) k) pts_q).
  assert (Hfound : tree_query (kdtree_ self) pts_q k eps tt
                   = OK (map (map fst) found, map (map snd) found)) by reflexivity.
  rewrite (query_returned self data k eps tt He Hfound)
    by (unfold found; rewrite !length_map; reflexivity).
  rewrite great_circle_rows_unit
    by (trivial; unfold found; rewrite !length_map; congruence).
  unfold found; rewrite !map_map.
  f_equal; f_equal; apply map_ext; intros pq; apply map_map.
Qed.

Lemma entry_rows {A B C : Type} (f : A -> list B) (g : B -> C) (l : list A) (q j : nat) :
  entry (map (fun a => map g (f a)) l) q j
  = match nth_error l q with
    | Some a => option_map g (nth_error (f a) j)
    | None => None
    end.
Proof.
  unfold entry; rewrite nth_error_map.
  destruct (nth_error l q); simpl; trivial.
  apply nth_error_map.
Qed.

(** What [__init__] builds over the reference structure. *)
Lemma init_reference (d : array_like) (self : KDSphere) :
  __init__ d tt = OK self ->
  exists rows pts rs,
    d = Arr2 rows /\
    spherical_to_cartesian_radius (Arr2 rows) = OK (pts, rs) /\
    self = mkKDSphere (E := Brute.index) (Arr2 rows) pts pts /\
    length pts = length rows.
Proof.
  unfold __init__, np_asarray, rbind.
  destruct (spherical_to_cartesian d) as [pts | e] eqn:He; try discriminate.
  simpl; intros H; injection H as <-.
  destruct (embed_ok _ He) as (rs & Her).
  destruct (embed_radius_ok _ Her) as (rows & -> & Hlen & _ & _).
  exists rows, pts, rs; auto.
Qed.

Lemma init_on_sphere (rows : list (list float64)) (self : KDSphere) :
  finite_rows rows -> __init__ (Arr2 rows) tt = OK self ->
  Forall on_unit_sphere (data3d self) /\
  kdtree_ self = data3d self /\
  length (data3d self) = length rows.
Proof.
  intros Hfin Hinit.
  destruct (init_reference _ Hinit) as (rows' & pts & rs & Hr & He & -> & Hlen).
  injection Hr as <-; simpl.
  repeat split; trivial.
  eapply embed_on_sphere; eassumption.
Qed.

(** X1.  Over the reference structure, for an index and query points
    with finite coordinates, at least one neighbour asked and a tolerance
    [eps >= 0], [query] returns for each query point [k] entries: at
    every position below [N] the index is that of a stored point, and
    every entry from position [N] on is the padding, a NaN distance with
    the index [N]. *)
Theorem query_pads_missing_neighbours
        (rows qrows : list (list float64)) (k : nat) (e : R)
        (self : KDSphere) (pts_q : list point3) (rs : list float64) (q j : nat) :
  finite_rows rows -> finite_rows qrows ->
  __init__ (Arr2 rows) tt = OK self ->
  spherical_to_cartesian_radius (Arr2 qrows) = OK (pts_q, rs) ->
  (1 <= k)%nat -> 0 <= e ->
  (q < length qrows)%nat -> (j < k)%nat ->
  exists dist_2d ind,
    returned (query (Arr2 qrows) k (Fin e) tt) self = OK (dist_2d, ind) /\
    ((j < length rows)%nat ->
     exists i, entry ind q j = Some i /\ (i < length rows)%nat) /\
    ((length rows <= j)%nat ->
     entry dist_2d q j = Some NaN /\ entry ind q j = Some (length rows)).
Proof.
  intros Hrows Hqrows Hinit Hq Hk1 He Hlt Hj.
  destruct (init_on_sphere Hrows Hinit) as (Hpts & Htree & Hlen).
  destruct (embed_radius_ok _ Hq) as (qrows' & Hq' & Hlq & _ & _).
  injection Hq' as <-.
  do 2 eexists; split; [apply (reference_query self _ k (Fin e) Hq) |].
  rewrite !entry_rows, Htree.
  destruct (nth_error pts_q q) as [pq |] eqn:Hnq;
    [| apply nth_error_None in Hnq; lia].
  split; intros HN.
  - rewrite knn_nth_hit by lia.
    destruct (nth_error (Brute.sort (Brute.candidates (data3d self) pq)) j)
      as [c |] eqn:Hc.
    + pose proof (nth_error_In _ _ Hc) as Hin.
      apply sort_in, candidates_in in Hin.
      destruct Hin as (p & Hp & _).
      exists (snd c); split; [reflexivity |].
      rewrite <- Hlen; apply nth_error_Some; congruence.
    + apply nth_error_None in Hc.
      rewrite sort_length, candidates_length in Hc; lia.
  - rewrite knn_nth_pad by lia; simpl.
    rewrite great_circle_inf, Hlen; split; reflexivity.
Qed.

(** X2.  Over the reference structure, for finite coordinates, a
    tolerance [eps >= 0], at least one and at most as many neighbours
    asked as there are stored points, and no stored point within
    [tolerance] of the antipode of a query point, the two arrays [query]
    returns are parallel: every returned index is the position of a
    stored point, no index occurs twice for one query point, and the
    distance returned at the same place is the great-circle distance
    between the query point and that stored point. *)
Theorem query_distance_belongs_to_index
        (rows qrows : list (list float64)) (k : nat) (e : R)
        (self : KDSphere) (pts_q : list point3) (rs : list float64) :
  finite_rows rows -> finite_rows qrows ->
  __init__ (Arr2 rows) tt = OK self ->
  spherical_to_cartesian_radius (Arr2 qrows) = OK (pts_q, rs) ->
  (1 <= k)%nat ->
  (k <= length rows)%nat ->
  0 <= e ->
  clear_of_antipodes pts_q (data3d self) ->
  exists dist_2d ind,
    returned (query (Arr2 qrows) k (Fin e) tt) self = OK (dist_2d, ind) /\
    Forall (fun irow => NoDup irow) ind /\
    (forall (q j i : nat),
        entry ind q j = Some i ->
        exists pq p,
          nth_error pts_q q = Some pq /\
          nth_error (data3d self) i = Some p /\
          entry dist_2d q j = Some (angle_between pq p)).
Proof.
  intros Hrows Hqrows Hinit Hq Hk1 Hk He Hclear.
  destruct (init_reference _ Hinit) as (rows' & pts & rs' & Hr & _ & -> & Hlen).
  injection Hr as <-; simpl.
  do 2 eexists; split; [apply (reference_query _ _ k (Fin e) Hq) |]; simpl.
  split.
  - rewrite Forall_map, Forall_forall; intros pq _.
    rewrite knn_no_padding, <- firstn_map by lia.
    apply firstn_nodup, sort_indices_nodup.
  - intros q j i; rewrite !entry_rows.
    destruct (nth_error pts_q q) as [pq |]; try discriminate.
    destruct (nth_error (Brute.knn pts k pq) j) as [c |] eqn:Hc; try discriminate.
    simpl; intros Hi; injection Hi as <-.
    assert (Hj : (j < length pts)%nat).
    { assert (Hs : nth_error (Brute.knn pts k pq) j <> None) by congruence.
      apply nth_error_Some in Hs; rewrite knn_length in Hs; lia. }
    destruct (knn_hit _ _ _ Hj Hc) as (p & Hp & Hd).
    exists pq, p; repeat split; trivial.
    unfold angle_between; rewrite Hd; reflexivity.
Qed.

(** X3.  Over the reference structure, for finite coordinates, an exact
    search ([eps = 0]) for at least one and at most as many neighbours
    as there are stored points, and no stored point within [tolerance]
    of the antipode of a query point, the neighbours [query] returns are
    the nearest in great-circle distance: every stored point either is
    among the indices returned for the query point or is at least as far
    from it as every returned neighbour. *)
Theorem query_returns_the_nearest
        (rows qrows : list (list float64)) (k : nat)
        (self : KDSphere) (pts_q : list point3) (rs : list float64) :
  finite_rows rows -> finite_rows qrows ->
  __init__ (Arr2 rows) tt = OK self ->
  spherical_to_cartesian_radius (Arr2 qrows) = OK (pts_q, rs) ->
  (1 <= k)%nat ->
  (k <= length rows)%nat ->
  clear_of_antipodes pts_q (data3d self) ->
  exists dist_2d ind,
    returned (query (Arr2 qrows) k (Fin 0) tt) self = OK (dist_2d, ind) /\
    (forall (q j i' : nat) (d : float64) (pq p' : point3),
        entry dist_2d q j = Some d ->
        nth_error pts_q q = Some pq ->
        nth_error (data3d self) i' = Some p' ->
        (exists j', entry ind q j' = Some i') \/ np_le d (angle_between pq p')).
Proof.
  intros Hrows Hqrows Hinit Hq Hk1 Hk Hclear.
  destruct (init_on_sphere Hrows Hinit) as (Hpts & Htree & Hlen).
  pose proof (embed_on_sphere Hqrows Hq) as Hpq.
  do 2 eexists; split; [apply (reference_query self _ k (Fin 0) Hq) |].
  intros q j i' d pq p' Hd Hnq Hp'.
  rewrite entry_rows, Hnq, Htree in Hd.
  destruct (nth_error (Brute.knn (data3d self) k pq) j) as [c |] eqn:Hc;
    try discriminate.
  simpl in Hd; injection Hd as <-.
  assert (Hj : (j < k)%nat).
  { assert (Hs : nth_error (Brute.knn (data3d self) k pq) j <> None) by congruence.
    apply nth_error_Some in Hs; rewrite knn_length in Hs; exact Hs. }
  rewrite knn_nth_hit in Hc by lia.
  assert (Hsq : on_unit_sphere pq).
  { rewrite Forall_forall in Hpq; apply Hpq; eapply nth_error_In; exact Hnq. }
  destruct (candidates_sorted Hsq Hpts) as [Hsorted Hall].
  rewrite Forall_forall in Hall.
  assert (Hin : In (Brute.dist pq p', i') (Brute.sort (Brute.candidates (data3d self) pq))).
  { apply sort_in, candidates_in; exists p'; auto. }
  destruct (In_nth_error _ _ Hin) as [j' Hj'].
  destruct (Nat.lt_ge_cases j' k) as [Hlt | Hge].
  - left; exists j'.
    assert (Hs : nth_error (Brute.sort (Brute.candidates (data3d self) pq)) j' <> None)
      by congruence.
    apply nth_error_Some in Hs; rewrite sort_length, candidates_length in Hs.
    rewrite entry_rows, Hnq, Htree, knn_nth_hit, Hj'; trivial.
  - right.
    assert (Hle : by_dist c (Brute.dist pq p', i')).
    { apply (sorted_nth Hsorted (j := j) (j' := j')); trivial; lia. }
    apply conversion_monotone; trivial.
    + apply angle_not_nan, chord_angle, Hall.
      eapply nth_error_In; exact Hc.
    + apply angle_not_nan, chord_angle, (Hall _ Hin).
Qed.




Lemma dist_self (p : point3) : on_unit_sphere p -> Brute.dist p p = Fin 0.
Proof.
  intros (a & b & c & -> & _).
  unfold Brute.dist, Brute.sq, np_sub, np_neg, np_add, np_mul, np_sqrt.
  replace ((a + - a) * (a + - a) + (b + - b) * (b + - b) + (c + - c) * (c + - c))
    with 0 by ring.
  destruct (Rle_dec 0 0) as [_ | Hn]; [| lra].
  rewrite sqrt_0; reflexivity.
Qed.



(** ** The radius queries over the reference structure *)

Lemma ball_in (t : list point3) (r : float64) (q : point3) (i : nat) :
  In i (Brute.ball t r q) <->
  exists p, nth_error t i = Some p /\ np_leb (Brute.dist q p) r = true.
Proof.
  unfold Brute.ball; rewrite in_map_iff; split.
  - intros (c & <- & Hc).
    apply filter_In in Hc; destruct Hc as [Hc Hr].
    apply candidates_in in Hc; destruct Hc as (p & Hp & Hd).
    exists p; split; trivial; congruence.
  - intros (p & Hp & Hr).
    exists (Brute.dist q p, i); split; trivial.
    apply filter_In; split; trivial.
    apply candidates_in; exists p; auto.
Qed.

Lemma filter_keeps_nodup {A B : Type} (g : A -> B) (f : A -> bool) (l : list A) :
  NoDup (map g l) -> NoDup (map g (filter f l)).
Proof.
  induction l as [| a l IH]; simpl; trivial.
  intros H; inversion H as [| ? ? Hnin Hnd]; subst.
  destruct (f a); simpl; auto.
  constructor; auto.
  intros Hin; apply Hnin.
  apply in_map_iff in Hin; destruct Hin as (x & Hx & Hin).
  apply filter_In in Hin; apply in_map_iff; exists x; tauto.
Qed.

Lemma ball_nodup (t : list point3) (r : float64) (q : point3) :
  NoDup (Brute.ball t r q).
Proof.
  unfold Brute.ball; apply filter_keeps_nodup.
  rewrite candidates_indices; apply seq_NoDup.
Qed.

(** What [query_ball_point] returns over the reference structure: one
    set per query point, in either shape. *)
Lemma reference_query_ball_point (self : KDSphere) (data : array_like) (r : float64)
      (pts_q : list point3) :
  spherical_to_cartesian (np_atleast_2d data) = OK pts_q ->
  exists m,
    returned (query_ball_point data r tt) self = OK m /\
    sets_of m = map (Brute.ball (kdtree_ self) r) pts_q.
Proof.
  intros He.
  destruct (embed_ok _ He) as (rs & Her).
  destruct (embed_radius_ok _ Her) as (rows & Hrows & Hd & _ & _).
  unfold returned; rewrite query_ball_point_run, He; simpl.
  unfold Brute.query_ball_point, unwrap; simpl.
  rewrite Hrows; simpl; rewrite <- Hd.
  destruct pts_q as [| p [| p' pts]]; simpl; eexists; split; reflexivity.
Qed.

Lemma reference_query_ball_tree (self : KDSphere) (other : tree_or_data)
      (t : list point3) (r : float64) :
  other_tree other = OK t ->
  returned (query_ball_tree other r tt) self
  = OK (map (Brute.ball t r) (kdtree_ self)).
Proof.
  intros Ho; unfold returned; rewrite query_ball_tree_run, Ho; reflexivity.
Qed.

(** X6.  Over the reference structure, for finite coordinates and a
    radius [r >= 0], [query_ball_point] returns one set per query point;
    the set of a query point holds positions of stored points, each at
    most once, and [r] is compared with the chord, the Euclidean distance
    of the embedded points: a stored point whose chord from the query
    point is below [r] by [tolerance] is in the set, and every point in
    the set has a chord of at most [r] plus [tolerance]. *)
Theorem query_ball_point_matches
        (rows qrows : list (list float64)) (data : array_like) (rho : R)
        (self : KDSphere) (pts_q : list point3) :
  finite_rows rows -> finite_rows qrows ->
  __init__ (Arr2 rows) tt = OK self ->
  np_atleast_2d data = Arr2 qrows ->
  spherical_to_cartesian (np_atleast_2d data) = OK pts_q ->
  0 <= rho ->
  exists m,
    returned (query_ball_point data (Fin rho) tt) self = OK m /\
    length (sets_of m) = length pts_q /\
    (forall (q : nat) (pq : point3),
        nth_error pts_q q = Some pq ->
        exists l,
          nth_error (sets_of m) q = Some l /\ NoDup l /\
          (forall i, In i l -> (i < length rows)%nat) /\
          (forall (i : nat) (p : point3) (d : R),
              nth_error (data3d self) i = Some p ->
              Brute.dist pq p = Fin d ->
              (d + tolerance <= rho -> In i l) /\
              (In i l -> d <= rho + tolerance))).
Proof.
  intros Hrows Hqrows Hinit Hdata He Hrho.
  destruct (init_on_sphere Hrows Hinit) as (_ & Htree & Hlen).
  destruct (reference_query_ball_point self data (Fin rho) He) as (m & Hm & Hsets).
  exists m; split; trivial; rewrite Hsets.
  split; [apply length_map |].
  intros q pq Hq.
  exists (Brute.ball (kdtree_ self) (Fin rho) pq); split; [| split; [| split]].
  - rewrite nth_error_map, Hq; reflexivity.
  - apply ball_nodup.
  - intros i Hi; apply ball_in in Hi; destruct Hi as (p & Hp & _).
    rewrite <- Hlen, <- Htree; apply nth_error_Some; congruence.
  - intros i p d Hp Hd; rewrite Htree; unfold tolerance; split.
    + intros Hle; apply ball_in; exists p; split; trivial.
      rewrite Hd; simpl; destruct (Rle_dec d rho); trivial; lra.
    + intros Hin; apply ball_in in Hin; destruct Hin as (p' & Hp' & Hle).
      assert (p' = p) by congruence; subst p'.
      rewrite Hd in Hle; simpl in Hle.
      destruct (Rle_dec d rho); try discriminate; lra.
Qed.

Lemma ball_everything (t : list point3) (r : float64) (q : point3) :
  Forall (fun p => np_leb (Brute.dist q p) r = true) t ->
  Brute.ball t r q = seq 0 (length t).
Proof.
  intros H; unfold Brute.ball.
  rewrite forallb_filter_id; [apply candidates_indices |].
  apply forallb_forall; intros c Hc.
  apply candidates_in in Hc; destruct Hc as (p & Hp & ->).
  rewrite Forall_forall in H; apply H.
  eapply nth_error_In; exact Hp.
Qed.

Lemma map_const_repeat_in {A B : Type} (f : A -> B) (b : B) (l : list A) :
  (forall a, In a l -> f a = b) -> map f l = repeat b (length l).
Proof.
  induction l as [| a l IH]; simpl; intros H; trivial.
  rewrite H, IH; auto.
Qed.

(** X7.  Over the reference structure, for finite coordinates, a radius
    above the diameter of the unit sphere by [tolerance] or more matches
    every stored point: [query_ball_point] returns, for each query point,
    all the positions [0 .. N-1]. *)
Theorem query_ball_point_radius_two
        (rows qrows : list (list float64)) (data : array_like) (rho : R)
        (self : KDSphere) (pts_q : list point3) :
  finite_rows rows -> finite_rows qrows ->
  __init__ (Arr2 rows) tt = OK self ->
  np_atleast_2d data = Arr2 qrows ->
  spherical_to_cartesian (np_atleast_2d data) = OK pts_q ->
  2 + tolerance <= rho ->
  exists m,
    returned (query_ball_point data (Fin rho) tt) self = OK m /\
    sets_of m = repeat (seq 0 (length rows)) (length qrows).
Proof.
  intros Hrows Hqrows Hinit Hdata He Hrho.
  unfold tolerance in Hrho.
  destruct (init_on_sphere Hrows Hinit) as (Hpts & Htree & Hlen).
  destruct (reference_query_ball_point self data (Fin rho) He) as (m & Hm & Hsets).
  exists m; split; trivial.
  destruct (embed_ok _ He) as (rs & Her).
  rewrite Hdata in Her.
  pose proof (embed_on_sphere Hqrows Her) as Hpq.
  destruct (embed_radius_ok _ Her) as (qrows' & Hq' & Hlq & _ & _).
  injection Hq' as <-.
  rewrite Hsets, Htree, <- Hlq, <- Hlen.
  apply map_const_repeat_in; intros pq Hin.
  apply ball_everything.
  rewrite Forall_forall in *; intros p Hp.
  destruct (dist_is_chord (Hpq pq Hin) (Hpts p Hp)) as (d & -> & Hd).
  simpl; destruct (Rle_dec d rho); trivial; lra.
Qed.

(** X9.  Over the reference structure, the join of an index over finite
    coordinates with itself, at a radius [r >= 0], has one set per stored
    point, and the set of point [i] holds [i]. *)
Theorem query_ball_tree_self_join
        (rows : list (list float64)) (r : float64) (self : KDSphere) (i : nat) :
  finite_rows rows ->
  __init__ (Arr2 rows) tt = OK self ->
  np_leb (Fin 0) r = true ->
  (i < length rows)%nat ->
  exists res l,
    returned (query_ball_tree (IsKDSphere self) r tt) self = OK res /\
    length res = length rows /\
    nth_error res i = Some l /\ In i l.
Proof.
  intros Hrows Hinit Hr Hi.
  destruct (init_on_sphere Hrows Hinit) as (Hpts & Htree & Hlen).
  destruct (nth_error (data3d self) i) as [p |] eqn:Hp;
    [| apply nth_error_None in Hp; lia].
  exists (map (Brute.ball (kdtree_ self) r) (kdtree_ self)),
         (Brute.ball (data3d self) r p).
  split; [apply reference_query_ball_tree; reflexivity |].
  rewrite Htree, length_map, nth_error_map, Hp; simpl.
  repeat split; trivial.
  apply ball_in; exists p; split; trivial.
  rewrite dist_self; trivial.
  rewrite Forall_forall in Hpts; apply Hpts; eapply nth_error_In; exact Hp.
Qed.

(** X10.  Over the reference structure, the join is symmetric: [j] is in
    the set that [a.query_ball_tree(b, r)] gives for point [i] of [a]
    exactly when [i] is in the set that [b.query_ball_tree(a, r)] gives
    for point [j] of [b]. *)
Theorem query_ball_tree_symmetric (a b : KDSphere) (r : float64) :
  exists ab ba,
    returned (query_ball_tree (IsKDSphere b) r tt) a = OK ab /\
    returned (query_ball_tree (IsKDSphere a) r tt) b = OK ba /\
    (forall i j : nat,
        (exists l, nth_error ab i = Some l /\ In j l) <->
        (exists l, nth_error ba j = Some l /\ In i l)).
Proof.
  exists (map (Brute.ball (kdtree_ b) r) (kdtree_ a)),
         (map (Brute.ball (kdtree_ a) r) (kdtree_ b)).
  split; [apply reference_query_ball_tree; reflexivity |].
  split; [apply reference_query_ball_tree; reflexivity |].
  assert (H : forall (ta tb : list point3) (i j : nat),
             (exists l, nth_error (map (Brute.ball tb r) ta) i = Some l /\ In j l) ->
             exists l, nth_error (map (Brute.ball ta r) tb) j = Some l /\ In i l).
  { intros ta tb i j (l & Hl & Hin).
    rewrite nth_error_map in Hl.
    destruct (nth_error ta i) as [p |] eqn:Hp; try discriminate.
    injection Hl as <-.
    apply ball_in in Hin; destruct Hin as (p' & Hp' & Hle).
    exists (Brute.ball ta r p'); split.
    - rewrite nth_error_map, Hp'; reflexivity.
    - apply ball_in; exists p; split; trivial.
      rewrite dist_sym; exact Hle. }
  intros i j; split; apply H.
Qed.

(** X8.  Over the reference structure, for finite coordinates, a larger
    radius never loses a match: when [0 <= r <= r'], every index
    [query_ball_point] returns for a query point at radius [r] is
    returned for it at radius [r']. *)
Theorem query_ball_point_grows_with_radius
        (rows qrows : list (list float64)) (self : KDSphere)
        (data : array_like) (rho rho' : R) (pts_q : list point3) :
  finite_rows rows -> finite_rows qrows ->
  __init__ (Arr2 rows) tt = OK self ->
  np_atleast_2d data = Arr2 qrows ->
  spherical_to_cartesian (np_atleast_2d data) = OK pts_q ->
  0 <= rho -> rho <= rho' ->
  exists m m',
    returned (query_ball_point data (Fin rho) tt) self = OK m /\
    returned (query_ball_point data (Fin rho') tt) self = OK m' /\
    length (sets_of m) = length (sets_of m') /\
    (forall (q : nat) (l l' : list nat),
        nth_error (sets_of m) q = Some l ->
        nth_error (sets_of m') q = Some l' ->
        incl l l').
Proof.
  intros Hrows Hqrows Hinit Hdata He Hrho Hle.
  destruct (reference_query_ball_point self data (Fin rho) He) as (m & Hm & Hs).
  destruct (reference_query_ball_point self data (Fin rho') He) as (m' & Hm' & Hs').
  exists m, m'; rewrite Hs, Hs', !length_map.
  repeat split; trivial.
  intros q l l'; rewrite !nth_error_map.
  destruct (nth_error pts_q q) as [pq |]; try discriminate.
  simpl; intros Hl Hl'; injection Hl as <-; injection Hl' as <-.
  intros i Hi; apply ball_in in Hi; apply ball_in.
  destruct Hi as (p & Hp & Hd).
  exists p; split; trivial.
  apply (np_leb_trans _ _ _ Hd).
  simpl; destruct (Rle_dec rho rho'); trivial; lra.
Qed.

(** X12.  Over the reference structure, an empty batch of query points
    raises nothing when at least one neighbour is asked, [eps >= 0] and
    [r >= 0]: [query] returns no row, [query_ball_point] returns an empty
    list of lists, and the join against an empty point set returns an
    empty set for each stored point. *)
Theorem empty_batch_answers (self : KDSphere) (k : nat) (e rho : R) :
  (1 <= k)%nat -> 0 <= e -> 0 <= rho ->
  returned (query (Arr2 []) k (Fin e) tt) self = OK ([], []) /\
  returned (query_ball_point (Arr2 []) (Fin rho) tt) self = OK (MatchLists []) /\
  returned (query_ball_tree (IsArrayLike (Arr2 [])) (Fin rho) tt) self
  = OK (repeat [] (length (kdtree_ self))).
Proof.
  intros Hk He Hrho.
  split; [| split].
  - apply (reference_query self (Arr2 []) k (Fin e) (pts_q := []) (rs := []));
      reflexivity.
  - unfold returned; rewrite query_ball_point_run; reflexivity.
  - rewrite (reference_query_ball_tree self (IsArrayLike (Arr2 [])) (t := []) (Fin rho))
      by reflexivity.
    f_equal; apply map_const_repeat; reflexivity.
Qed.

(** ** The further properties on concrete inputs *)

Lemma leb_0_0 : np_leb (Fin 0) (Fin 0) = true.
Proof. np_crush. Qed.

Lemma five_halves : 2 + tolerance <= 2.5.
Proof. unfold tolerance; lra. Qed.

Lemma one_le_five_halves : 1 <= 2.5.
Proof. lra. Qed.

Lemma finite_corner : finite_rows [[Fin 0; Fin 0]; [Fin (PI / 2); Fin 0]].
Proof. repeat constructor. Qed.

Lemma finite_antipode : finite_rows [[Fin PI; Fin 0]].
Proof. repeat constructor. Qed.

Lemma embed_corner :
  spherical_to_cartesian_radius corner = OK ([unit_x; unit_y], [Fin 1; Fin 1]).
Proof.
  unfold spherical_to_cartesian_radius, corner, unit_x, unit_y, rmap, rbind; simpl.
  rewrite cos_0, sin_0, cos_PI2, sin_PI2.
  repeat f_equal; lra.
Qed.

Lemma init_corner : __init__ corner tt = OK corner_index.
Proof.
  unfold __init__, spherical_to_cartesian, np_asarray.
  rewrite embed_corner; reflexivity.
Qed.

Lemma dist_unit_x_unit_x : Brute.dist unit_x unit_x = Fin 0.
Proof.
  unfold Brute.dist, unit_x, Brute.sq; np_crush.
  f_equal; rewrite <- sqrt_0; f_equal; lra.
Qed.

Lemma dist_unit_x_unit_y : Brute.dist unit_x unit_y = Fin (sqrt 2).
Proof.
  unfold Brute.dist, unit_x, unit_y, Brute.sq; np_crush.
  do 3 f_equal; lra.
Qed.

Lemma sqrt_2_below_diameter : sqrt 2 <= 2 - tolerance.
Proof.
  unfold tolerance.
  apply Rle_trans with (sqrt (1.5 * 1.5)).
  - apply sqrt_le_1; lra.
  - rewrite sqrt_square; lra.
Qed.

(** The quarter turn between (0, 0) and (pi/2, 0) is far from a half
    turn. *)
Lemma corner_clear : clear_of_antipodes [unit_x] (data3d corner_index).
Proof.
  intros pq p [<- | []] [<- | [<- | []]].
  - exists 0; split; [exact dist_unit_x_unit_x | unfold tolerance; lra].
  - exists (sqrt 2); split; [exact dist_unit_x_unit_y | exact sqrt_2_below_diameter].
Qed.

Lemma one_le_three : (1 <= 3)%nat.
Proof. lia. Qed.

(** X1 at a concrete call: three neighbours of (0, 0) asked of the index
    over (0, 0) and (pi, 0); the third entry is padding. *)
Lemma query_pads_missing_neighbours_witness :
  (finite_rows [[Fin 0; Fin 0]; [Fin PI; Fin 0]] /\
   finite_rows [[Fin 0; Fin 0]] /\
   __init__ poles tt = OK poles_index /\
   spherical_to_cartesian_radius origin = OK ([unit_x], [Fin 1]) /\
   (1 <= 3)%nat /\ 0 <= 0) /\
  exists dist_2d ind,
    returned (query origin 3 (Fin 0) tt) poles_index = OK (dist_2d, ind) /\
    ((2 < 2)%nat ->
     exists i, entry ind 0 2 = Some i /\ (i < 2)%nat) /\
    ((2 <= 2)%nat ->
     entry dist_2d 0 2 = Some NaN /\ entry ind 0 2 = Some 2%nat).
Proof.
  split.
  - repeat split;
      [exact finite_poles | exact finite_origin | exact init_poles |
       exact embed_origin | exact one_le_three | exact zero_le_zero].
  - exact (@query_pads_missing_neighbours
             [[Fin 0; Fin 0]; [Fin PI; Fin 0]] [[Fin 0; Fin 0]] 3 0
             poles_index [unit_x] [Fin 1] 0%nat 2%nat
             finite_poles finite_origin init_poles embed_origin
             one_le_three zero_le_zero
             (Nat.lt_0_succ 0) (Nat.lt_succ_diag_r 2)).
Defined.

(** X2 at a concrete call: the two neighbours of (0, 0) in the index over
    (0, 0) and (pi/2, 0). *)
Lemma query_distance_belongs_to_index_witness :
  (finite_rows [[Fin 0; Fin 0]; [Fin (PI / 2); Fin 0]] /\
   finite_rows [[Fin 0; Fin 0]] /\
   __init__ corner tt = OK corner_index /\
   spherical_to_cartesian_radius origin = OK ([unit_x], [Fin 1]) /\
   (1 <= 2)%nat /\ 0 <= 0 /\
   clear_of_antipodes [unit_x] (data3d corner_index)) /\
  exists dist_2d ind,
    returned (query origin 2 (Fin 0) tt) corner_index = OK (dist_2d, ind) /\
    Forall (fun irow => NoDup irow) ind /\
    (forall (q j i : nat),
        entry ind q j = Some i ->
        exists pq p,
          nth_error [unit_x] q = Some pq /\
          nth_error (data3d corner_index) i = Some p /\
          entry dist_2d q j = Some (angle_between pq p)).
Proof.
  split.
  - repeat split;
      [exact finite_corner | exact finite_origin | exact init_corner |
       exact embed_origin | exact one_le_two | exact zero_le_zero |
       exact corner_clear].
  - exact (@query_distance_belongs_to_index
             [[Fin 0; Fin 0]; [Fin (PI / 2); Fin 0]] [[Fin 0; Fin 0]] 2 0
             corner_index [unit_x] [Fin 1]
             finite_corner finite_origin init_corner embed_origin
             one_le_two (Nat.le_refl 2) zero_le_zero corner_clear).
Defined.

(** X3 at a concrete call: the nearest neighbour of (0, 0) in the index
    over (0, 0) and (pi/2, 0). *)
Lemma query_returns_the_nearest_witness :
  (finite_rows [[Fin 0; Fin 0]; [Fin (PI / 2); Fin 0]] /\
   finite_rows [[Fin 0; Fin 0]] /\
   __init__ corner tt = OK corner_index /\
   spherical_to_cartesian_radius origin = OK ([unit_x], [Fin 1]) /\
   clear_of_antipodes [unit_x] (data3d corner_index)) /\
  exists dist_2d ind,
    returned (query origin 1 (Fin 0) tt) corner_index = OK (dist_2d, ind) /\
    (forall (q j i' : nat) (d : float64) (pq p' : point3),
        entry dist_2d q j = Some d ->
        nth_error [unit_x] q = Some pq ->
        nth_error (data3d corner_index) i' = Some p' ->
        (exists j', entry ind q j' = Some i') \/ np_le d (angle_between pq p')).
Proof.
  split.
  - repeat split;
      [exact finite_corner | exact finite_origin | exact init_corner |
       exact embed_origin | exact corner_clear].
  - exact (@query_returns_the_nearest
             [[Fin 0; Fin 0]; [Fin (PI / 2); Fin 0]] [[Fin 0; Fin 0]] 1
             corner_index [unit_x] [Fin 1]
             finite_corner finite_origin init_corner embed_origin
             (Nat.le_refl 1) (Nat.le_succ_diag_r 1) corner_clear).
Defined.


(** X5 at a concrete call: the two neighbours of (0, 0) in the index over
    (0, 0) and (pi/2, 0). *)
Lemma reference_query_angles_sorted_witness :
  (finite_rows [[Fin 0; Fin 0]; [Fin (PI / 2); Fin 0]] /\
   finite_rows [[Fin 0; Fin 0]] /\
   __init__ corner tt = OK corner_index /\
   spherical_to_cartesian_radius origin = OK ([unit_x], [Fin 1]) /\
   (1 <= 2)%nat /\
   clear_of_antipodes [unit_x] (data3d corner_index)) /\
  exists dist_2d ind,
    returned (query origin 2 (Fin 0) tt) corner_index = OK (dist_2d, ind) /\
    length dist_2d = 1%nat /\
    Forall (fun row => length row = 2%nat) dist_2d /\
    Forall (Forall is_angle) dist_2d /\
    Forall (Sorted np_le) dist_2d.
Proof.
  split.
  - repeat split;
      [exact finite_corner | exact finite_origin | exact init_corner |
       exact embed_origin | exact one_le_two | exact corner_clear].
  - exact (@reference_query_angles_sorted
             [[Fin 0; Fin 0]; [Fin (PI / 2); Fin 0]] [[Fin 0; Fin 0]] 2
             corner_index [unit_x] [Fin 1]
             finite_corner finite_origin init_corner embed_origin
             one_le_two (Nat.le_refl 2) corner_clear).
Defined.

(** X6 at a concrete call: the points within 1 of the bare point (0, 0)
    in the index over (0, 0) and (pi, 0). *)
Lemma query_ball_point_matches_witness :
  (finite_rows [[Fin 0; Fin 0]; [Fin PI; Fin 0]] /\
   finite_rows [[Fin 0; Fin 0]] /\
   __init__ poles tt = OK poles_index /\
   spherical_to_cartesian (np_atleast_2d origin_point) = OK [unit_x] /\
   0 <= 1) /\
  exists m,
    returned (query_ball_point origin_point (Fin 1) tt) poles_index = OK m /\
    length (sets_of m) = 1%nat /\
    (forall (q : nat) (pq : point3),
        nth_error [unit_x] q = Some pq ->
        exists l,
          nth_error (sets_of m) q = Some l /\ NoDup l /\
          (forall i, In i l -> (i < 2)%nat) /\
          (forall (i : nat) (p : point3) (d : R),
              nth_error (data3d poles_index) i = Some p ->
              Brute.dist pq p = Fin d ->
              (d + tolerance <= 1 -> In i l) /\
              (In i l -> d <= 1 + tolerance))).
Proof.
  split.
  - repeat split;
      [exact finite_poles | exact finite_origin | exact init_poles |
       exact (embed_points_of _ embed_origin) | exact zero_le_one].
  - exact (@query_ball_point_matches
             [[Fin 0; Fin 0]; [Fin PI; Fin 0]] [[Fin 0; Fin 0]] origin_point 1
             poles_index [unit_x]
             finite_poles finite_origin init_poles eq_refl
             (embed_points_of _ embed_origin) zero_le_one).
Defined.

(** X7 at a concrete call: radius 2.5 around the bare point (0, 0). *)
Lemma query_ball_point_radius_two_witness :
  (finite_rows [[Fin 0; Fin 0]; [Fin PI; Fin 0]] /\
   finite_rows [[Fin 0; Fin 0]] /\
   __init__ poles tt = OK poles_index /\
   spherical_to_cartesian (np_atleast_2d origin_point) = OK [unit_x] /\
   2 + tolerance <= 2.5) /\
  exists m,
    returned (query_ball_point origin_point (Fin 2.5) tt) poles_index = OK m /\
    sets_of m = [[0; 1]%nat].
Proof.
  split.
  - repeat split;
      [exact finite_poles | exact finite_origin | exact init_poles |
       exact (embed_points_of _ embed_origin) | exact five_halves].
  - exact (@query_ball_point_radius_two
             [[Fin 0; Fin 0]; [Fin PI; Fin 0]] [[Fin 0; Fin 0]] origin_point 2.5
             poles_index [unit_x]
             finite_poles finite_origin init_poles eq_refl
             (embed_points_of _ embed_origin) five_halves).
Defined.

(** X8 at a concrete call: radii 1 and 2.5 around the bare point (pi, 0)
    in the index that holds only (0, 0). *)
Lemma query_ball_point_grows_with_radius_witness :
  (finite_rows [[Fin 0; Fin 0]] /\
   finite_rows [[Fin PI; Fin 0]] /\
   __init__ origin tt = OK origin_index /\
   spherical_to_cartesian (np_atleast_2d antipode_point) = OK [minus_unit_x] /\
   0 <= 1 /\ 1 <= 2.5) /\
  exists m m',
    returned (query_ball_point antipode_point (Fin 1) tt) origin_index = OK m /\
    returned (query_ball_point antipode_point (Fin 2.5) tt) origin_index = OK m' /\
    length (sets_of m) = length (sets_of m') /\
    (forall (q : nat) (l l' : list nat),
        nth_error (sets_of m) q = Some l ->
        nth_error (sets_of m') q = Some l' ->
        incl l l').
Proof.
  split.
  - repeat split;
      [exact finite_origin | exact finite_antipode | exact init_origin |
       exact (embed_points_of _ embed_antipode) | exact zero_le_one |
       exact one_le_five_halves].
  - exact (@query_ball_point_grows_with_radius
             [[Fin 0; Fin 0]] [[Fin PI; Fin 0]] origin_index antipode_point
             1 2.5 [minus_unit_x]
             finite_origin finite_antipode init_origin eq_refl
             (embed_points_of _ embed_antipode) zero_le_one one_le_five_halves).
Defined.

(** X9 at a concrete call: the index over (0, 0) and (pi, 0) joined with
    itself at radius 0. *)
Lemma query_ball_tree_self_join_witness :
  (finite_rows [[Fin 0; Fin 0]; [Fin PI; Fin 0]] /\
   __init__ poles tt = OK poles_index /\
   np_leb (Fin 0) (Fin 0) = true) /\
  exists res l,
    returned (query_ball_tree (IsKDSphere poles_index) (Fin 0) tt) poles_index = OK res /\
    length res = 2%nat /\
    nth_error res 1 = Some l /\ In 1%nat l.
Proof.
  split.
  - split; [exact finite_poles | split; [exact init_poles | exact leb_0_0]].
  - exact (@query_ball_tree_self_join
             [[Fin 0; Fin 0]; [Fin PI; Fin 0]] (Fin 0) poles_index 1%nat
             finite_poles init_poles leb_0_0 (Nat.lt_succ_diag_r 1)).
Defined.

(** X12 at a concrete call: empty batches asked of the index that holds
    only (0, 0). *)
Lemma empty_batch_answers_witness :
  ((1 <= 2)%nat /\ 0 <= 0 /\ 0 <= 1) /\
  returned (query (Arr2 []) 2 (Fin 0) tt) origin_index = OK ([], []) /\
  returned (query_ball_point (Arr2 []) (Fin 1) tt) origin_index = OK (MatchLists []) /\
  returned (query_ball_tree (IsArrayLike (Arr2 [])) (Fin 1) tt) origin_index
  = OK (repeat [] (length (kdtree_ origin_index))).
Proof.
  split.
  - repeat split; [exact one_le_two | exact zero_le_zero | exact zero_le_one].
  - exact (@empty_batch_answers origin_index 2 0 1
             one_le_two zero_le_zero zero_le_one).
Defined.

(** The chord is recovered from the great-circle distance [query]
    derives from it: [chord = 2 sin(angle / 2)]. *)
Lemma angle_of_chord (p q : point3) :
  on_unit_sphere p -> on_unit_sphere q ->
  exists d theta,
    Brute.dist p q = Fin d /\ angle_between p q = Fin theta /\
    0 <= theta <= PI /\ 2 * sin (theta / 2) = d.
Proof.
  intros Hp Hq.
  destruct (dist_is_chord Hp Hq) as (d & Hd & Hrange).
  exists d, (2 * asin (d / 2)).
  assert (Hb : 0 <= asin (d / 2) <= PI / 2).
  { pose proof (asin_bound (d / 2)) as Hb.
    pose proof (@asin_monotone 0 (d / 2)) as Hm.
    rewrite asin_0 in Hm; lra. }
  repeat split; trivial; try lra.
  - unfold angle_between, chord_to_great_circle; rewrite Hd; np_crush.
    do 3 f_equal; lra.
  - replace (2 * asin (d / 2) / 2) with (asin (d / 2)) by lra.
    rewrite sin_asin; lra.
Qed.

(** X13.  Over the reference structure, for finite coordinates, a radius
    [r >= 0] and no stored point within [tolerance] of the antipode of a
    query point, what the radius of [query_ball_point] means in angular
    terms: a stored point is at a great-circle distance [theta] in
    [0, pi] from the query point, as [query] measures it; it is in the
    query point's set when [2 sin(theta / 2)] is below [r] by
    [tolerance], and every point in the set has [2 sin(theta / 2)] at
    most [r] plus [tolerance]. *)
Theorem query_ball_point_in_angles
        (rows qrows : list (list float64)) (data : array_like) (rho : R)
        (self : KDSphere) (pts_q : list point3) :
  finite_rows rows -> finite_rows qrows ->
  __init__ (Arr2 rows) tt = OK self ->
  np_atleast_2d data = Arr2 qrows ->
  spherical_to_cartesian (np_atleast_2d data) = OK pts_q ->
  0 <= rho ->
  clear_of_antipodes pts_q (data3d self) ->
  exists m,
    returned (query_ball_point data (Fin rho) tt) self = OK m /\
    (forall (q i : nat) (pq p : point3) (l : list nat),
        nth_error pts_q q = Some pq ->
        nth_error (sets_of m) q = Some l ->
        nth_error (data3d self) i = Some p ->
        exists theta,
          angle_between pq p = Fin theta /\ 0 <= theta <= PI /\
          (2 * sin (theta / 2) + tolerance <= rho -> In i l) /\
          (In i l -> 2 * sin (theta / 2) <= rho + tolerance)).
Proof.
  intros Hrows Hqrows Hinit Hdata He Hrho Hclear.
  clear Hclear.
  destruct (init_on_sphere Hrows Hinit) as (Hpts & Htree & Hlen).
  destruct (reference_query_ball_point self data (Fin rho) He) as (m & Hm & Hsets).
  exists m; split; trivial.
  destruct (embed_ok _ He) as (rs & Her).
  rewrite Hdata in Her.
  pose proof (embed_on_sphere Hqrows Her) as Hpq.
  rewrite Forall_forall in Hpts, Hpq.
  intros q i pq p l Hq Hl Hp.
  rewrite Hsets, nth_error_map, Hq, Htree in Hl; simpl in Hl; injection Hl as <-.
  destruct (angle_of_chord (Hpq pq (nth_error_In _ _ Hq)) (Hpts p (nth_error_In _ _ Hp)))
    as (d & theta & Hd & Ha & Hrange & Hchord).
  unfold tolerance.
  exists theta; repeat split; trivial; try lra.
  - intros Hle; apply ball_in; exists p; split; trivial.
    rewrite Hd; simpl.
    destruct (Rle_dec d rho); trivial; lra.
  - intros Hin; apply ball_in in Hin; destruct Hin as (p' & Hp' & Hle).
    assert (p' = p) by congruence; subst p'.
    rewrite Hd in Hle; simpl in Hle.
    destruct (Rle_dec d rho); try discriminate; lra.
Qed.

(** X13 at a concrete call: radius 1 around the bare point (0, 0) in the
    index over (0, 0) and (pi/2, 0). *)
Lemma query_ball_point_in_angles_witness :
  (finite_rows [[Fin 0; Fin 0]; [Fin (PI / 2); Fin 0]] /\
   finite_rows [[Fin 0; Fin 0]] /\
   __init__ corner tt = OK corner_index /\
   spherical_to_cartesian (np_atleast_2d origin_point) = OK [unit_x] /\
   0 <= 1 /\
   clear_of_antipodes [unit_x] (data3d corner_index)) /\
  exists m,
    returned (query_ball_point origin_point (Fin 1) tt) corner_index = OK m /\
    (forall (q i : nat) (pq p : point3) (l : list nat),
        nth_error [unit_x] q = Some pq ->
        nth_error (sets_of m) q = Some l ->
        nth_error (data3d corner_index) i = Some p ->
        exists theta,
          angle_between pq p = Fin theta /\ 0 <= theta <= PI /\
          (2 * sin (theta / 2) + tolerance <= 1 -> In i l) /\
          (In i l -> 2 * sin (theta / 2) <= 1 + tolerance)).
Proof.
  split.
  - repeat split;
      [exact finite_corner | exact finite_origin | exact init_corner |
       exact (embed_points_of _ embed_origin) | exact zero_le_one |
       exact corner_clear].
  - exact (@query_ball_point_in_angles
             [[Fin 0; Fin 0]; [Fin (PI / 2); Fin 0]] [[Fin 0; Fin 0]] origin_point 1
             corner_index [unit_x]
             finite_corner finite_origin init_corner eq_refl
             (embed_points_of _ embed_origin) zero_le_one corner_clear).
Defined.
